(** * tap-csv: the CSVStream client (src/tap_csv/client.py)

    A shallow embedding of [CSVStream]: file discovery ([get_file_paths],
    [is_valid_filename]), the row reader ([get_rows]), record production
    ([get_records]) and schema derivation ([schema]).

    Python strings are modelled as [string] (8-bit characters); [str.lower]
    is modelled on the ASCII letters, which is all the extension tests
    look at.  A Python [dict] is a [gmap]: equality of dicts ignores
    insertion order, and so does equality of maps.  The file system, the
    [os] and [os.path] functions and the decompressing CSV readers are the
    environment of the program and are collected in a [World]. *)

From Stdlib Require Import Ascii NArith.
From stdpp Require Import gmap strings list fin_maps.

(* ===================================================================== *)
(** * Strings: [str.lower] and [str.endswith] *)
(* ===================================================================== *)

Module Str.

(** [c.lower()] for one character: the letters A..Z move down by 32. *)
Definition ascii_lower (c : ascii) : ascii :=
  let n := N_of_ascii c in
  if ((65 <=? n) && (n <=? 90))%N then ascii_of_N (n + 32) else c.

(** [s.lower()] *)
Fixpoint lower (s : string) : string :=
  match s with
  | EmptyString => EmptyString
  | String c s' => String (ascii_lower c) (lower s')
  end.

(** [s.endswith(suffix)]: the suffix is no longer than [s] and the last
    [len(suffix)] characters of [s] are the suffix. *)
Definition endswith (s suffix : string) : bool :=
  let n := String.length s in
  let k := String.length suffix in
  (k <=? n) && String.eqb (String.substring (n - k) k s) suffix.

(** [sep.join(parts)] *)
Definition join (sep : string) (parts : list string) : string :=
  String.concat sep parts.

End Str.

(* ===================================================================== *)
(** * Data model *)
(* ===================================================================== *)

(** A row as [csv.reader] yields it: a list of text fields. *)
Abbreviation Row := (list string).

(** A record as [get_records] yields it: [dict] from field name to value. *)
Abbreviation Record := (gmap string string).

(** The four callables [get_rows] binds to [opener]. *)
Inductive opener : Type :=
| gzip_open      (* gzip.open *)
| bz2_open       (* bz2.open *)
| lzma_open      (* lzma.open *)
| builtin_open.  (* open *)

(** The exceptions the client can end with.  [PyException] is the builtin
    [Exception] raised by [get_file_paths]; [UnboundLocalError] is what
    reading a local name that was never bound raises; [OtherError] stands
    for whatever opening, decompressing or parsing a file raises. *)
Inductive exn : Type :=
| PyException (msg : string)
| UnboundLocalError (var : string)
| OtherError (msg : string).

(** Python's class hierarchy: [UnboundLocalError] is a subclass of
    [NameError]; the other two are not. *)
Definition is_NameError (e : exn) : bool :=
  match e with
  | UnboundLocalError _ => true
  | _ => false
  end.

(** How a generator ends: it is exhausted, or an exception escapes it. *)
Inductive outcome : Type :=
| Exhausted
| Raised (e : exn).

(** A generator run to its end: what it yielded, in order, and how it
    ended. *)
Record gen (A : Type) : Type := Gen { yielded : list A; final : outcome }.
Arguments Gen {A} _ _.
Arguments yielded {A} _.
Arguments final {A} _.

(** The environment.  [csv_rows o p] is what [csv.reader(o(p, "rt"))]
    produces when iterated to the end. *)
Record World : Type := {
  os_path_exists : string -> bool;
  os_path_isdir : string -> bool;
  os_listdir : string -> list string;
  os_path_normpath : string -> string;
  os_sep : string;
  csv_rows : opener -> string -> gen Row
}.

(** What the program does to its environment and to its logger. *)
Inductive event : Type :=
| PathExists (p : string)            (* os.path.exists(p) *)
| PathIsDir (p : string)             (* os.path.isdir(p) *)
| ListDir (p : string)               (* os.listdir(p) *)
| Warning (msg : string)             (* self.logger.warning(msg) *)
| OpenFile (o : opener) (p : string) (* o(p, "rt") *)
| NextRow (p : string).              (* next() on the csv reader over p *)

(** [file_config]: the entry "path" is required, "keys" is optional. *)
Record FileConfig : Type := {
  cfg_path : string;
  cfg_keys : option (list string)
}.

(** The attributes of a [CSVStream] instance the client reads or writes. *)
Record CSVStream : Type := {
  name : string;
  file_config : FileConfig;
  file_paths : list string;
  primary_keys : list string
}.

(** The instance together with the events so far. *)
Record state : Type := { self : CSVStream; trace : list event }.

(** [th.StringType()] and some of its siblings in [singer_sdk.typing]. *)
Inductive th_type : Type :=
| StringType
| IntegerType
| NumberType
| BooleanType.

(** [th.Property(name, type)] *)
Record Property : Type := { prop_name : string; prop_type : th_type }.

(* ===================================================================== *)
(** * A state and exception monad for the methods *)
(* ===================================================================== *)

Inductive result (A : Type) : Type :=
| Return (a : A)
| Raise (e : exn).
Arguments Return {A} _.
Arguments Raise {A} _.

Definition M (A : Type) : Type := state -> result A * state.

Definition ret {A} (a : A) : M A := fun st => (Return a, st).

Definition raise {A} (e : exn) : M A := fun st => (Raise e, st).

Definition bind {A B} (m : M A) (k : A -> M B) : M B :=
  fun st =>
    match m st with
    | (Return a, st') => k a st'
    | (Raise e, st') => (Raise e, st')
    end.

Notation "x <- m ;; k" := (bind m (fun x => k))
  (at level 100, m at next level, right associativity).
Notation "m ;;; k" := (bind m (fun _ => k))
  (at level 100, right associativity).

Definition get_self : M CSVStream := fun st => (Return (self st), st).

Definition emit (e : event) : M unit :=
  fun st => (Return tt, {| self := self st; trace := trace st ++ [e] |}).

(** [self.file_paths = l] *)
Definition with_file_paths (l : list string) (st : state) : state :=
  {| self := {| name := name (self st);
                file_config := file_config (self st);
                file_paths := l;
                primary_keys := primary_keys (self st) |};
     trace := trace st |}.

(** [self.primary_keys = l] *)
Definition with_primary_keys (l : list string) (st : state) : state :=
  {| self := {| name := name (self st);
                file_config := file_config (self st);
                file_paths := file_paths (self st);
                primary_keys := l |};
     trace := trace st |}.

Definition set_file_paths (l : list string) : M unit :=
  fun st => (Return tt, with_file_paths l st).

Definition set_primary_keys (l : list string) : M unit :=
  fun st => (Return tt, with_primary_keys l st).

(** The state after more events. *)
Definition log_events (evs : list event) (st : state) : state :=
  {| self := self st; trace := trace st ++ evs |}.

(** Python truthiness of a list: [if l:] *)
Definition truthy {A} (l : list A) : bool :=
  match l with
  | [] => false
  | _ :: _ => true
  end.

(* ===================================================================== *)
(** * The client *)
(* ===================================================================== *)

Definition supported_extensions : list string :=
  [".csv"; ".csv.gz"; ".csv.bz2"; ".csv.xz"; ".csv.lzma"].

(** The loop of [is_valid_filename]: [True] at the first extension the
    (lowercased) path ends with. *)
Fixpoint ext_loop (file_path : string) (exts : list string) : bool :=
  match exts with
  | [] => false
  | check_ext :: rest =>
      if Str.endswith file_path check_ext then true
      else ext_loop file_path rest
  end.

Definition skipping_message (file_path : string) : string :=
  "Skipping non-csv file '" +:+ file_path +:+ "'".

Definition extensions_message : string :=
  "Please provide a CSV file with any of supported extensions: "
  +:+ Str.join ", " supported_extensions.

(** [CSVStream.is_valid_filename] *)
Definition is_valid_filename (file_path : string) : M bool :=
  let file_path := Str.lower file_path in
  if ext_loop file_path supported_extensions then ret true
  else
    emit (Warning (skipping_message file_path)) ;;;
    emit (Warning extensions_message) ;;;
    ret false.

(** The directory branch of [get_file_paths]: the loop over
    [os.listdir(clean_file_path)], appending to [file_paths]. *)
Fixpoint listdir_loop (clean_file_path : string) (filenames : list string)
    (file_paths : list string) : M (list string) :=
  match filenames with
  | [] => ret file_paths
  | filename :: rest =>
      let file_path := clean_file_path +:+ filename in
      ok <- is_valid_filename file_path ;;
      listdir_loop clean_file_path rest
        (if ok then file_paths ++ [file_path] else file_paths)
  end.

Definition path_missing_error (file_path : string) : exn :=
  PyException ("File path does not exist " +:+ file_path).

Definition no_files_error (stream_name : string) : exn :=
  PyException ("Stream '" +:+ stream_name +:+ "' has no acceptable files. "
               +:+ "                    See warning for more detail.").

(** [CSVStream.get_file_paths] *)
Definition get_file_paths (w : World) : M (list string) :=
  s <- get_self ;;
  if truthy (file_paths s) then ret (file_paths s)
  else
    let file_path := cfg_path (file_config s) in
    emit (PathExists file_path) ;;;
    if negb (os_path_exists w file_path) then raise (path_missing_error file_path)
    else
      emit (PathIsDir file_path) ;;;
      found <-
        (if os_path_isdir w file_path then
           let clean_file_path := os_path_normpath w file_path +:+ os_sep w in
           emit (ListDir clean_file_path) ;;;
           listdir_loop clean_file_path (os_listdir w clean_file_path) []
         else
           ok <- is_valid_filename file_path ;;
           ret (if ok then [file_path] else [])) ;;
      if negb (truthy found) then raise (no_files_error (name s))
      else set_file_paths found ;;; ret found.

(** The opener [get_rows] selects. *)
Definition select_opener (file_path : string) : opener :=
  if Str.endswith (Str.lower file_path) ".gz" then gzip_open
  else if Str.endswith (Str.lower file_path) ".bz2" then bz2_open
  else if Str.endswith (Str.lower file_path) ".xz"
          || Str.endswith (Str.lower file_path) ".lzma" then lzma_open
  else builtin_open.

(** [CSVStream.get_rows]: the rows of one file, read through the opener
    selected from its name. *)
Definition get_rows (w : World) (file_path : string) : gen Row :=
  csv_rows w (select_opener file_path) file_path.

(** [dict(pairs)]: later pairs overwrite earlier ones. *)
Definition dict (pairs : list (string * string)) : Record :=
  foldl (fun d kv => <[kv.1 := kv.2]> d) ∅ pairs.

(** The inner loop of [get_records] over the rows of one file, with the
    loop variable [headers]. *)
Fixpoint rows_loop (headers : Row) (rows : list Row) : list Record :=
  match rows with
  | [] => []
  | row :: rest =>
      if negb (truthy headers) then rows_loop row rest
      else dict (zip headers row) :: rows_loop headers rest
  end.

(** Events of iterating [get_rows w file_path] to its end: the file is
    opened and the reader is asked once per row and once more. *)
Definition read_all_events (w : World) (file_path : string) : list event :=
  OpenFile (select_opener file_path) file_path
  :: replicate (S (length (yielded (get_rows w file_path)))) (NextRow file_path).

(** The outer loop of [get_records] over the file paths. *)
Fixpoint files_loop (w : World) (paths : list string) (st : state)
    : gen Record * state :=
  match paths with
  | [] => (Gen [] Exhausted, st)
  | file_path :: rest =>
      let rows := get_rows w file_path in
      let st1 := log_events (read_all_events w file_path) st in
      let records := rows_loop [] (yielded rows) in
      match final rows with
      | Raised e => (Gen records (Raised e), st1)
      | Exhausted =>
          let '(g, st2) := files_loop w rest st1 in
          (Gen (records ++ yielded g) (final g), st2)
      end
  end.

(** [CSVStream.get_records], iterated to its end.  [context] is ignored. *)
Definition get_records (w : World) (context : option (gmap string string))
    (st : state) : gen Record * state :=
  match get_file_paths w st with
  | (Raise e, st') => (Gen [] (Raised e), st')
  | (Return paths, st') => files_loop w paths st'
  end.

(** [for header in self.get_rows(file_path): break]: the first row, if
    there is one. *)
Definition first_row (w : World) (file_path : string) : M (option Row) :=
  emit (OpenFile (select_opener file_path) file_path) ;;;
  emit (NextRow file_path) ;;;
  match yielded (get_rows w file_path), final (get_rows w file_path) with
  | header :: _, _ => ret (Some header)
  | [], Exhausted => ret None
  | [], Raised e => raise e
  end.

Section Schema.

(** [th.PropertiesList] applied to the properties, then [to_dict()]:
    this conversion belongs to singer_sdk. *)
Context {JSONSchema : Type}.
Variable PropertiesList_to_dict : list Property -> JSONSchema.

(** The loop of [schema] over the columns of the header. *)
Fixpoint columns_loop (header : Row) (properties : list Property)
    : list Property :=
  match header with
  | [] => properties
  | column :: rest =>
      columns_loop rest
        (properties ++ [{| prop_name := column; prop_type := StringType |}])
  end.

(** [CSVStream.schema] *)
Definition schema (w : World) : M JSONSchema :=
  s <- get_self ;;
  set_primary_keys (default [] (cfg_keys (file_config s))) ;;;
  paths <- get_file_paths w ;;
  header <-
    match paths with
    | [] => ret None
    | file_path :: _ => first_row w file_path
    end ;;
  match header with
  | None => raise (UnboundLocalError "header")
  | Some header => ret (PropertiesList_to_dict (columns_loop header []))
  end.

End Schema.

(* ===================================================================== *)
(** * Descriptions used in the statements *)
(* ===================================================================== *)

(** The decision of [is_valid_filename], without its logging. *)
Definition accepts (file_path : string) : bool :=
  ext_loop (Str.lower file_path) supported_extensions.

(** The two warnings [is_valid_filename] logs for a path it rejects. *)
Definition rejection_warnings (file_path : string) : list event :=
  [Warning (skipping_message (Str.lower file_path)); Warning extensions_message].

Definition filter_events (file_path : string) : list event :=
  if accepts file_path then [] else rejection_warnings file_path.

(** [clean_file_path] of the directory branch. *)
Definition clean_path (w : World) (file_path : string) : string :=
  os_path_normpath w file_path +:+ os_sep w.

(** The paths [get_file_paths] submits to the filter: the entries of the
    directory, each behind the cleaned directory path, or the configured
    path alone. *)
Definition candidates (w : World) (file_path : string) : list string :=
  if os_path_isdir w file_path then
    (fun filename => clean_path w file_path +:+ filename)
      <$> os_listdir w (clean_path w file_path)
  else [file_path].

(** The file-system calls of a resolution that finds the path. *)
Definition probe_events (w : World) (file_path : string) : list event :=
  PathExists file_path :: PathIsDir file_path ::
  (if os_path_isdir w file_path then [ListDir (clean_path w file_path)] else []).

(** The value [headers] holds once the inner loop of [get_records] has
    adopted a header: the first row that is not empty. *)
Fixpoint header_of (rows : list Row) : Row :=
  match rows with
  | [] => []
  | row :: rest => if truthy row then row else header_of rest
  end.

(** The rows after the one adopted as header. *)
Fixpoint rows_after_header (rows : list Row) : list Row :=
  match rows with
  | [] => []
  | row :: rest => if truthy row then rest else rows_after_header rest
  end.

(** The records [get_records] yields while it reads one file. *)
Definition file_records (w : World) (file_path : string) : list Record :=
  rows_loop [] (yielded (get_rows w file_path)).

(** The files [get_records] reads: the paths in order, up to and including
    the first one whose reader raises. *)
Fixpoint files_read (w : World) (paths : list string) : list string :=
  match paths with
  | [] => []
  | file_path :: rest =>
      file_path ::
      match final (get_rows w file_path) with
      | Exhausted => files_read w rest
      | Raised _ => []
      end
  end.

(** A caller that resolves the file paths once per world of [ws], one call
    after the other on the same instance. *)
Fixpoint get_file_paths_seq (ws : list World) (st : state)
    : list (result (list string)) * state :=
  match ws with
  | [] => ([], st)
  | w :: rest =>
      let '(r, st1) := get_file_paths w st in
      let '(rs, st2) := get_file_paths_seq rest st1 in
      (r :: rs, st2)
  end.

(** The names of a record's fields. *)
Definition keys (r : Record) : gset string := dom r.

(** The paths a list of events opens, in order. *)
Fixpoint opened (evs : list event) : list string :=
  match evs with
  | [] => []
  | OpenFile _ p :: rest => p :: opened rest
  | _ :: rest => opened rest
  end.

(** Whether an event opens a file or asks a reader for a row. *)
Definition touches_files (e : event) : bool :=
  match e with
  | OpenFile _ _ | NextRow _ => true
  | _ => false
  end.

(* ===================================================================== *)
(** * The constructor *)
(* ===================================================================== *)

Section Init.

(** The values of the keyword arguments are not looked at. *)
Context {Value : Type}.

(** How [CSVStream.__init__] reaches the constructor of the base class:
    it calls it with the positional arguments and the remaining keyword
    arguments, with [self.file_config] set, or [kwargs.pop] raises
    [KeyError] before the call. *)
Inductive init_outcome : Type :=
| SuperInit (file_config : Value) (args : list Value)
    (kwargs : gmap string Value)
| KeyError (key : string).

(** [CSVStream.__init__], up to the call of [super().__init__]. *)
Definition init (args : list Value) (kwargs : gmap string Value)
    : init_outcome :=
  match kwargs !! "file_config" with
  | Some file_config => SuperInit file_config args (delete "file_config" kwargs)
  | None => KeyError "file_config"
  end.

End Init.

(* ===================================================================== *)
(** * Example file systems and streams *)
(* ===================================================================== *)

Module Fixtures.

(** A stream that has resolved nothing yet. *)
Definition stream (path : string) (keys : option (list string)) : state :=
  {| self := {| name := "people";
                file_config := {| cfg_path := path; cfg_keys := keys |};
                file_paths := [];
                primary_keys := [] |};
     trace := [] |}.

Definition people : list Row := [["id"; "name"]; ["1"; "Ann"]; ["2"; "Bo"]].
Definition stock : list Row := [["sku"; "qty"]; ["x1"; "7"]].

Definition unreadable : gen Row := Gen [] (Raised (OtherError "cannot open")).

(** The directory [data] with the given entries; [a.csv] holds [people]
    as plain text and [b.csv.gz] holds [stock] gzipped. *)
Definition data_dir (entries : list string) : World :=
  {| os_path_exists p :=
       String.eqb p "data" || existsb (fun e => String.eqb p ("data/" +:+ e)) entries;
     os_path_isdir p := String.eqb p "data";
     os_listdir p := if String.eqb p "data/" then entries else [];
     os_path_normpath p := p;
     os_sep := "/";
     csv_rows o p :=
       match o with
       | builtin_open =>
           if String.eqb p "data/a.csv" then Gen people Exhausted else unreadable
       | gzip_open =>
           if String.eqb p "data/b.csv.gz" then Gen stock Exhausted else unreadable
       | _ => unreadable
       end |}.

(** A file system that holds the one plain file [path] with [rows]. *)
Definition one_file (path : string) (rows : list Row) : World :=
  {| os_path_exists p := String.eqb p path;
     os_path_isdir p := false;
     os_listdir p := [];
     os_path_normpath p := p;
     os_sep := "/";
     csv_rows o p :=
       match o with
       | builtin_open => if String.eqb p path then Gen rows Exhausted else unreadable
       | _ => unreadable
       end |}.

(** An empty file system. *)
Definition nothing : World :=
  {| os_path_exists p := false;
     os_path_isdir p := false;
     os_listdir p := [];
     os_path_normpath p := p;
     os_sep := "/";
     csv_rows o p := unreadable |}.

(** The directory [d] whose one entry [data.csv] is itself a directory. *)
Definition nested_dir : World :=
  {| os_path_exists p := String.eqb p "d" || String.eqb p "d/data.csv";
     os_path_isdir p := String.eqb p "d" || String.eqb p "d/data.csv";
     os_listdir p := if String.eqb p "d/" then ["data.csv"] else [];
     os_path_normpath p := p;
     os_sep := "/";
     csv_rows o p := Gen [] (Raised (OtherError "Is a directory")) |}.

(** A file whose first line is blank: [csv.reader] yields an empty row
    for it. *)
Definition blank_first_line : list Row := [[]; ["a"]; ["1"]].

End Fixtures.

(* ===================================================================== *)
(** * Facts about strings *)
(* ===================================================================== *)

Section StringFacts.

Lemma app_cons (c : ascii) (s t : string) :
  String c s +:+ t = String c (s +:+ t).
Proof. reflexivity. Qed.

Lemma app_assoc_str (a b c : string) : (a +:+ b) +:+ c = a +:+ (b +:+ c).
Proof.
  induction a as [|x a IH]; [reflexivity|].
  rewrite !app_cons. by rewrite IH.
Qed.

Lemma length_app_str (a b : string) :
  String.length (a +:+ b) = String.length a + String.length b.
Proof.
  induction a as [|x a IH]; [reflexivity|].
  rewrite app_cons. simpl. by rewrite IH.
Qed.

Lemma substring_whole (s : string) :
  String.substring 0 (String.length s) s = s.
Proof. induction s as [|c s IH]; simpl; [done|by rewrite IH]. Qed.

Lemma substring_skip (pre s : string) (m : nat) :
  String.substring (String.length pre) m (pre +:+ s) = String.substring 0 m s.
Proof.
  induction pre as [|c pre IH]; [reflexivity|].
  rewrite app_cons. simpl. apply IH.
Qed.

Lemma substring_split (s : string) (i : nat) :
  i <= String.length s ->
  s = String.substring 0 i s +:+ String.substring i (String.length s - i) s.
Proof.
  revert i. induction s as [|c s IH]; intros i Hi.
  - destruct i; simpl in *; [done|lia].
  - destruct i as [|i].
    + simpl. by rewrite substring_whole.
    + simpl in Hi. simpl String.length. simpl String.substring at 2.
      replace (S (String.length s) - S i) with (String.length s - i) by lia.
      change (String.substring 0 (S i) (String c s))
        with (String c (String.substring 0 i s)).
      rewrite app_cons. f_equal. apply IH. lia.
Qed.

(** [endswith] is the suffix relation. *)
Lemma endswith_spec (s suffix : string) :
  Str.endswith s suffix = true <-> exists pre, s = pre +:+ suffix.
Proof.
  unfold Str.endswith. rewrite andb_true_iff, Nat.leb_le, String.eqb_eq.
  split.
  - intros [Hle Hsub].
    exists (String.substring 0 (String.length s - String.length suffix) s).
    pose proof (substring_split s (String.length s - String.length suffix)) as Hs.
    replace (String.length s - (String.length s - String.length suffix))
      with (String.length suffix) in Hs by lia.
    rewrite Hsub in Hs. apply Hs. lia.
  - intros [pre ->]. rewrite length_app_str. split; [lia|].
    replace (String.length pre + String.length suffix - String.length suffix)
      with (String.length pre) by lia.
    rewrite substring_skip. apply substring_whole.
Qed.

(** A string that ends with [a +:+ b] ends with [b]. *)
Lemma endswith_app (s a b : string) :
  Str.endswith s (a +:+ b) = true -> Str.endswith s b = true.
Proof.
  rewrite !endswith_spec. intros [pre ->]. exists (pre +:+ a).
  by rewrite app_assoc_str.
Qed.

(** Two suffixes of one string that have the same length are equal. *)
Lemma endswith_same_length (s a b : string) :
  String.length a = String.length b ->
  Str.endswith s a = true -> Str.endswith s b = true -> a = b.
Proof.
  unfold Str.endswith. intros Hlen.
  rewrite !andb_true_iff, !String.eqb_eq. rewrite Hlen.
  intros [_ Ha] [_ Hb]. congruence.
Qed.

Lemma ascii_lower_idemp (c : ascii) :
  Str.ascii_lower (Str.ascii_lower c) = Str.ascii_lower c.
Proof. destruct c as [[] [] [] [] [] [] [] []]; reflexivity. Qed.

Lemma lower_idemp (s : string) : Str.lower (Str.lower s) = Str.lower s.
Proof.
  induction s as [|c s IH]; simpl; [done|].
  by rewrite ascii_lower_idemp, IH.
Qed.

End StringFacts.

(* ===================================================================== *)
(** * Running the methods *)
(* ===================================================================== *)

(** One step of a method: decide the tests on values that are known and
    apply the continuation. *)
Ltac run_step := cbn [truthy negb self trace]; cbv beta.

Section Resolution.

Lemma log_events_nil (st : state) : log_events [] st = st.
Proof. destruct st. unfold log_events; simpl. by rewrite app_nil_r. Qed.

Lemma log_events_app (a b : list event) (st : state) :
  log_events b (log_events a st) = log_events (a ++ b) st.
Proof. unfold log_events; simpl. by rewrite app_assoc. Qed.

Lemma emit_run (e : event) (st : state) :
  emit e st = (Return tt, log_events [e] st).
Proof. reflexivity. Qed.

Lemma truthy_false {A} (l : list A) : truthy l = false <-> l = [].
Proof. destruct l; simpl; split; congruence. Qed.

Lemma truthy_true {A} (l : list A) : truthy l = true <-> l <> [].
Proof. destruct l; simpl; split; congruence. Qed.

Lemma ext_loop_spec (file_path : string) (exts : list string) :
  ext_loop file_path exts = true <->
  exists ext, ext ∈ exts /\ Str.endswith file_path ext = true.
Proof.
  induction exts as [|e exts IH]; simpl.
  - split; [done|]. intros (ext & Hin & _). by apply elem_of_nil in Hin.
  - destruct (Str.endswith file_path e) eqn:He.
    + split; [|done]. intros _. exists e. split; [left|done].
    + rewrite IH. split.
      * intros (ext & Hin & Hext). exists ext. split; [by right|done].
      * intros (ext & Hin & Hext). apply elem_of_cons in Hin as [->|Hin];
          [congruence|eauto].
Qed.

(** [is_valid_filename] returns its decision and logs the two warnings
    exactly when it rejects. *)
Lemma is_valid_filename_run (file_path : string) (st : state) :
  is_valid_filename file_path st
  = (Return (accepts file_path), log_events (filter_events file_path) st).
Proof.
  unfold is_valid_filename, filter_events, accepts.
  destruct (ext_loop (Str.lower file_path) supported_extensions).
  - unfold ret. by rewrite log_events_nil.
  - unfold bind. rewrite !emit_run, log_events_app. reflexivity.
Qed.

Lemma listdir_loop_run (clean : string) (filenames acc : list string)
    (st : state) :
  listdir_loop clean filenames acc st
  = (Return (acc ++ List.filter accepts
                      ((fun filename => clean +:+ filename) <$> filenames)),
     log_events (concat (filter_events
                          <$> ((fun filename => clean +:+ filename) <$> filenames)))
                st).
Proof.
  revert acc st. induction filenames as [|f rest IH]; intros acc st.
  - simpl. unfold ret. by rewrite app_nil_r, log_events_nil.
  - cbn [listdir_loop]. unfold bind at 1. rewrite is_valid_filename_run.
    rewrite IH, log_events_app. rewrite !fmap_cons. cbn [concat List.filter].
    destruct (accepts (clean +:+ f)); [|done].
    by rewrite <- app_assoc.
Qed.

(** A stream that already holds a list answers from it. *)
Lemma get_file_paths_cached (w : World) (st : state) :
  file_paths (self st) <> [] ->
  get_file_paths w st = (Return (file_paths (self st)), st).
Proof.
  intros Hne%truthy_true. unfold get_file_paths, bind, get_self.
  by rewrite Hne.
Qed.

(** A resolution whose configured path does not exist. *)
Lemma get_file_paths_missing (w : World) (st : state) :
  file_paths (self st) = [] ->
  os_path_exists w (cfg_path (file_config (self st))) = false ->
  get_file_paths w st
  = (Raise (path_missing_error (cfg_path (file_config (self st)))),
     log_events [PathExists (cfg_path (file_config (self st)))] st).
Proof.
  intros Hnil Hex. unfold get_file_paths, bind, get_self.
  rewrite Hnil. run_step. rewrite emit_run. run_step. by rewrite Hex.
Qed.

(** A resolution whose configured path exists. *)
Lemma get_file_paths_fresh (w : World) (st : state) :
  file_paths (self st) = [] ->
  os_path_exists w (cfg_path (file_config (self st))) = true ->
  get_file_paths w st
  = let file_path := cfg_path (file_config (self st)) in
    let found := List.filter accepts (candidates w file_path) in
    let st1 := log_events (probe_events w file_path
                           ++ concat (filter_events <$> candidates w file_path))
                          st in
    if truthy found then (Return found, with_file_paths found st1)
    else (Raise (no_files_error (name (self st))), st1).
Proof.
  intros Hnil Hex. unfold get_file_paths, bind, get_self.
  rewrite Hnil. run_step. rewrite emit_run. run_step.
  rewrite Hex. run_step. rewrite emit_run, log_events_app.
  unfold candidates, probe_events, clean_path.
  destruct (os_path_isdir w (cfg_path (file_config (self st)))).
  - run_step. rewrite emit_run, log_events_app, listdir_loop_run, log_events_app.
    cbn [app]. cbv zeta.
    destruct (List.filter _ _) as [|x l] eqn:Hf; reflexivity.
  - run_step. rewrite is_valid_filename_run, log_events_app. cbv zeta.
    cbn [fmap list_fmap concat List.filter]. rewrite app_nil_r.
    destruct (accepts (cfg_path (file_config (self st)))); reflexivity.
Qed.

End Resolution.

(* ===================================================================== *)
(** * Records: [dict(zip(headers, row))] *)
(* ===================================================================== *)

Section Records.

Lemma dict_nil : dict [] = ∅.
Proof. reflexivity. Qed.

(** The last pair is inserted last. *)
Lemma dict_snoc (pairs : list (string * string)) (kv : string * string) :
  dict (pairs ++ [kv]) = <[kv.1 := kv.2]> (dict pairs).
Proof. unfold dict. by rewrite foldl_app. Qed.

Lemma dict_keys (pairs : list (string * string)) (k : string) :
  k ∈ keys (dict pairs) <-> k ∈ pairs.*1.
Proof.
  unfold keys. induction pairs as [|kv pairs IH] using rev_ind.
  - rewrite dict_nil, dom_empty_L. simpl. split; intros H.
    + by apply elem_of_empty in H.
    + by apply elem_of_nil in H.
  - rewrite dict_snoc, dom_insert_L, fmap_app, elem_of_union, elem_of_singleton.
    rewrite elem_of_app, IH. simpl. rewrite list_elem_of_singleton. tauto.
Qed.

(** A value found under a key was paired with it. *)
Lemma dict_lookup_Some (pairs : list (string * string)) (k v : string) :
  dict pairs !! k = Some v -> (k, v) ∈ pairs.
Proof.
  induction pairs as [|[k' v'] pairs IH] using rev_ind.
  - rewrite dict_nil, lookup_empty. done.
  - rewrite dict_snoc. simpl. rewrite lookup_insert, elem_of_app.
    case_decide as Hk.
    + intros [= <-]. subst k'. right. apply list_elem_of_here.
    + intros H%IH. by left.
Qed.

(** With no repeated key, every pair is found. *)
Lemma dict_lookup_NoDup (pairs : list (string * string)) (k v : string) :
  NoDup pairs.*1 -> (k, v) ∈ pairs -> dict pairs !! k = Some v.
Proof.
  induction pairs as [|[k' v'] pairs IH] using rev_ind.
  { intros _ Hin. by apply elem_of_nil in Hin. }
  rewrite fmap_app. simpl. intros [Hnd [Hdisj _]]%NoDup_app Hin.
  rewrite dict_snoc. simpl. rewrite lookup_insert.
  apply elem_of_app in Hin as [Hin|Hin%list_elem_of_singleton].
  - case_decide as Hk; [|by apply IH].
    subst k'. exfalso. apply (Hdisj k); [|apply list_elem_of_here].
    apply list_elem_of_fmap. by exists (k, v).
  - injection Hin as -> ->. by rewrite decide_True.
Qed.

(** The names paired by [zip] are the leading header names, as many as
    the row has fields. *)
Lemma zip_names (headers row : Row) :
  (zip headers row).*1 = take (length row) headers.
Proof.
  rewrite <- (zip_with_take_both pair headers row).
  apply fst_zip. rewrite !length_take. lia.
Qed.

(** Once [headers] holds a header, every row gives one record. *)
Lemma rows_loop_headers (headers : Row) (rows : list Row) :
  headers <> [] ->
  rows_loop headers rows = (fun row => dict (zip headers row)) <$> rows.
Proof.
  intros Hne%truthy_true. induction rows as [|row rows IH]; [done|].
  cbn [rows_loop]. rewrite Hne. cbn [negb]. by rewrite IH.
Qed.

Lemma header_of_truthy (rows : list Row) :
  header_of rows = [] \/ header_of rows ∈ rows.
Proof.
  induction rows as [|row rows IH]; [by left|].
  simpl. destruct row as [|c row]; simpl.
  - destruct IH as [?|?]; [by left|right; by right].
  - right. by left.
Qed.

(** The inner loop started with no header: the first row that is not
    empty becomes the header and every row after it gives one record. *)
Lemma rows_loop_fresh (rows : list Row) :
  rows_loop [] rows
  = (fun row => dict (zip (header_of rows) row)) <$> rows_after_header rows.
Proof.
  induction rows as [|row rows IH]; [done|].
  cbn [rows_loop truthy negb header_of rows_after_header].
  destruct row as [|c row].
  - exact IH.
  - cbn [truthy]. by apply rows_loop_headers.
Qed.

Lemma rows_after_header_sub (rows : list Row) (row : Row) :
  row ∈ rows_after_header rows -> row ∈ rows.
Proof.
  induction rows as [|r rows IH]; [done|]. simpl.
  destruct (truthy r); intros H; right; auto.
Qed.

(** The outer loop: the records of the files read, file after file. *)
Lemma files_loop_run (w : World) (paths : list string) (st : state) :
  files_loop w paths st
  = (Gen (concat (file_records w <$> files_read w paths))
         (default Exhausted
            (final <$> (get_rows w <$> last (files_read w paths)))),
     log_events (concat (read_all_events w <$> files_read w paths)) st).
Proof.
  revert st. induction paths as [|p paths IH]; intros st.
  - simpl. by rewrite log_events_nil.
  - cbn [files_loop files_read]. fold (file_records w p).
    destruct (final (get_rows w p)) as [|e] eqn:Hfin.
    + rewrite IH, log_events_app. cbn [fmap list_fmap concat].
      destruct (files_read w paths) as [|q qs] eqn:Hread.
      * simpl. by rewrite Hfin.
      * by rewrite last_cons_cons.
    + simpl. by rewrite Hfin, !app_nil_r.
Qed.

End Records.

(* ===================================================================== *)
(** * The filename filter and the choice of opener *)
(* ===================================================================== *)

Section Extensions.

(** Two suffixes of one string agree on their common tail. *)
Lemma endswith_tails (s a x b y : string) :
  String.length x = String.length y ->
  Str.endswith s (a +:+ x) = true -> Str.endswith s (b +:+ y) = true ->
  x = y.
Proof.
  intros Hlen Ha%endswith_app Hb%endswith_app.
  by apply (endswith_same_length s).
Qed.

Lemma gz_excludes_bz2 (s : string) :
  Str.endswith s ".gz" = true -> Str.endswith s ".bz2" = false.
Proof.
  intros Hgz. destruct (Str.endswith s ".bz2") eqn:Hbz; [|done].
  by pose proof (endswith_tails s ".g" "z" ".bz" "2" eq_refl Hgz Hbz).
Qed.

Lemma gz_excludes_lzma (s : string) :
  Str.endswith s ".gz" = true -> Str.endswith s ".lzma" = false.
Proof.
  intros Hgz. destruct (Str.endswith s ".lzma") eqn:Hl; [|done].
  by pose proof (endswith_tails s ".g" "z" ".lzm" "a" eq_refl Hgz Hl).
Qed.

Lemma gz_excludes_xz (s : string) :
  Str.endswith s ".gz" = true -> Str.endswith s ".xz" = false.
Proof.
  intros Hgz. destruct (Str.endswith s ".xz") eqn:Hx; [|done].
  by pose proof (endswith_tails s "." "gz" "." "xz" eq_refl Hgz Hx).
Qed.

Lemma bz2_excludes_xz (s : string) :
  Str.endswith s ".bz2" = true -> Str.endswith s ".xz" = false.
Proof.
  intros Hbz. destruct (Str.endswith s ".xz") eqn:Hx; [|done].
  by pose proof (endswith_tails s ".bz" "2" ".x" "z" eq_refl Hbz Hx).
Qed.

Lemma bz2_excludes_lzma (s : string) :
  Str.endswith s ".bz2" = true -> Str.endswith s ".lzma" = false.
Proof.
  intros Hbz. destruct (Str.endswith s ".lzma") eqn:Hl; [|done].
  by pose proof (endswith_tails s ".bz" "2" ".lzm" "a" eq_refl Hbz Hl).
Qed.

Lemma lower_app (a b : string) :
  Str.lower (a +:+ b) = Str.lower a +:+ Str.lower b.
Proof.
  induction a as [|c a IH]; [done|].
  rewrite app_cons. simpl. by rewrite IH, app_cons.
Qed.

Lemma length_lower (s : string) : String.length (Str.lower s) = String.length s.
Proof. induction s as [|c s IH]; simpl; [done|by rewrite IH]. Qed.

Lemma substring_skip_more (pre s : string) (i m : nat) :
  String.substring (String.length pre + i) m (pre +:+ s) = String.substring i m s.
Proof.
  induction pre as [|c pre IH]; [reflexivity|].
  rewrite app_cons. simpl. apply IH.
Qed.

(** Whether a string ends with [suffix] is decided by any tail of it
    that is at least as long as [suffix]. *)
Lemma endswith_tail (pre s suffix : string) :
  String.length suffix <= String.length s ->
  Str.endswith (pre +:+ s) suffix = Str.endswith s suffix.
Proof.
  intros Hlen. unfold Str.endswith. rewrite length_app_str.
  replace (String.length pre + String.length s - String.length suffix)
    with (String.length pre + (String.length s - String.length suffix)) by lia.
  rewrite substring_skip_more. f_equal.
  destruct (Nat.leb_spec (String.length suffix) (String.length s)); [|lia].
  destruct (Nat.leb_spec (String.length suffix)
              (String.length pre + String.length s)); [done|lia].
Qed.

End Extensions.

(** C8: [get_rows] opens a path through the opener [select_opener] picks,
    and the pick looks at the lowercased path only: ending in [.gz] gives
    [gzip.open], ending in [.bz2] gives [bz2.open], ending in [.xz] or
    [.lzma] gives [lzma.open], and any other path gives the builtin [open].
    Paths with the same lowercased form get the same opener, and so do
    paths with the same last five characters. *)
Theorem C8_opener_from_suffix (file_path : string) :
  let lowered := Str.lower file_path in
  (Str.endswith lowered ".gz" = true -> select_opener file_path = gzip_open)
  /\ (Str.endswith lowered ".bz2" = true -> select_opener file_path = bz2_open)
  /\ (Str.endswith lowered ".xz" = true \/ Str.endswith lowered ".lzma" = true ->
      select_opener file_path = lzma_open)
  /\ (Str.endswith lowered ".gz" = false -> Str.endswith lowered ".bz2" = false ->
      Str.endswith lowered ".xz" = false -> Str.endswith lowered ".lzma" = false ->
      select_opener file_path = builtin_open)
  /\ (forall other, Str.lower other = lowered ->
      select_opener other = select_opener file_path)
  /\ (forall pre, 5 <= String.length file_path ->
      select_opener (pre +:+ file_path) = select_opener file_path)
  /\ (forall w, get_rows w file_path = csv_rows w (select_opener file_path) file_path).
Proof.
  cbv zeta. unfold select_opener. repeat split.
  - by intros ->.
  - intros Hbz. rewrite Hbz.
    destruct (Str.endswith (Str.lower file_path) ".gz") eqn:Hgz; [|done].
    apply gz_excludes_bz2 in Hgz. congruence.
  - intros Hx.
    destruct (Str.endswith (Str.lower file_path) ".gz") eqn:Hgz.
    { pose proof (gz_excludes_xz _ Hgz). pose proof (gz_excludes_lzma _ Hgz).
      destruct Hx; congruence. }
    destruct (Str.endswith (Str.lower file_path) ".bz2") eqn:Hbz.
    { pose proof (bz2_excludes_xz _ Hbz). pose proof (bz2_excludes_lzma _ Hbz).
      destruct Hx; congruence. }
    destruct Hx as [-> | ->]; [done|]. by rewrite orb_true_r.
  - by intros -> -> -> ->.
  - by intros other ->.
  - intros pre Hlen. rewrite lower_app.
    rewrite !endswith_tail by (rewrite length_lower; simpl; lia). done.
Qed.

(** C4: [is_valid_filename] never raises; it returns [True] exactly when
    the lowercased path ends with one of the five extensions [.csv],
    [.csv.gz], [.csv.bz2], [.csv.xz], [.csv.lzma], so the case of the
    letters plays no part.  On acceptance nothing is logged; on rejection
    it logs its two warnings and returns [False].  A rejected candidate
    next to an accepted one does not make the resolution fail: the call
    returns the accepted candidates. *)
Theorem C4_extension_filter (file_path : string) (st : state) :
  (exists accepted : bool,
      is_valid_filename file_path st
      = (Return accepted,
         log_events (if accepted then [] else rejection_warnings file_path) st)
      /\ (accepted = true <->
          exists ext,
            ext ∈ [".csv"; ".csv.gz"; ".csv.bz2"; ".csv.xz"; ".csv.lzma"]
            /\ Str.endswith (Str.lower file_path) ext = true))
  /\ (forall other, Str.lower other = Str.lower file_path ->
      (is_valid_filename other st).1 = (is_valid_filename file_path st).1)
  /\ (forall (w : World) (st0 : state),
      file_paths (self st0) = [] ->
      os_path_exists w (cfg_path (file_config (self st0))) = true ->
      accepts file_path = true ->
      file_path ∈ candidates w (cfg_path (file_config (self st0))) ->
      exists st1,
        get_file_paths w st0
        = (Return (List.filter accepts
                     (candidates w (cfg_path (file_config (self st0))))), st1)).
Proof.
  split; [|split].
  - exists (accepts file_path). split.
    + apply is_valid_filename_run.
    + unfold accepts. apply ext_loop_spec.
  - intros other Hlow. rewrite !is_valid_filename_run. simpl.
    unfold accepts. by rewrite Hlow.
  - intros w st0 Hnil Hex Hacc Hin.
    rewrite (get_file_paths_fresh w st0 Hnil Hex). cbv zeta.
    destruct (List.filter accepts _) as [|x l] eqn:Hf.
    + exfalso. apply list_elem_of_In in Hin.
      assert (In file_path (List.filter accepts
                (candidates w (cfg_path (file_config (self st0)))))) as Hin'
        by (apply filter_In; auto).
      by rewrite Hf in Hin'.
    + simpl. eauto.
Qed.

(* ===================================================================== *)
(** * File resolution *)
(* ===================================================================== *)

Section ResolutionFacts.

(** When no candidate is accepted, every candidate is warned about. *)
Lemma filter_events_all_rejected (l : list string) :
  List.filter accepts l = [] ->
  filter_events <$> l = rejection_warnings <$> l.
Proof.
  induction l as [|c l IH]; [done|]. cbn [List.filter fmap list_fmap].
  unfold filter_events at 1. destruct (accepts c); [done|].
  intros H. f_equal. by apply IH.
Qed.

Lemma filter_events_no_isdir (l : list string) (p : string) :
  PathIsDir p ∉ concat (filter_events <$> l).
Proof.
  induction l as [|c l IH]; cbn [fmap list_fmap concat].
  - apply not_elem_of_nil.
  - rewrite elem_of_app. intros [Hin|Hin]; [|done].
    unfold filter_events, rejection_warnings in Hin.
    destruct (accepts c).
    + by apply elem_of_nil in Hin.
    + apply elem_of_cons in Hin as [?|Hin]; [done|].
      apply elem_of_cons in Hin as [?|Hin]; [done|].
      by apply elem_of_nil in Hin.
Qed.

(** A call that returns a list leaves that list, which is not empty, in
    [file_paths]. *)
Lemma get_file_paths_success (w : World) (st st1 : state) (paths : list string) :
  get_file_paths w st = (Return paths, st1) ->
  file_paths (self st1) = paths /\ paths <> [].
Proof.
  destruct (file_paths (self st)) as [|p0 l] eqn:Hfp.
  - destruct (os_path_exists w (cfg_path (file_config (self st)))) eqn:Hex.
    + rewrite (get_file_paths_fresh w st Hfp Hex). cbv zeta.
      destruct (List.filter accepts _) as [|x found]; simpl; [done|].
      intros [= <- <-]. done.
    + by rewrite (get_file_paths_missing w st Hfp Hex).
  - rewrite get_file_paths_cached by (rewrite Hfp; done).
    intros [= <- <-]. by rewrite Hfp.
Qed.

(** Resolution writes [file_paths] and the trace, nothing else. *)
Lemma get_file_paths_frame (w : World) (st st1 : state)
    (r : result (list string)) :
  get_file_paths w st = (r, st1) ->
  name (self st1) = name (self st)
  /\ file_config (self st1) = file_config (self st)
  /\ primary_keys (self st1) = primary_keys (self st).
Proof.
  destruct (file_paths (self st)) as [|p0 l] eqn:Hfp.
  - destruct (os_path_exists w (cfg_path (file_config (self st)))) eqn:Hex.
    + rewrite (get_file_paths_fresh w st Hfp Hex). cbv zeta.
      destruct (truthy _); intros [= <- <-]; done.
    + rewrite (get_file_paths_missing w st Hfp Hex). by intros [= <- <-].
  - rewrite get_file_paths_cached by (rewrite Hfp; done). by intros [= <- <-].
Qed.

End ResolutionFacts.

(** C3: a resolution that is carried out (the stream holds no list yet)
    fails in two ways.  If the configured path does not exist it raises
    the exception with the message "File path does not exist ..." right
    after the existence test: nothing is listed, filtered or opened.  If
    the path exists and no candidate passes the extension filter it raises
    the exception with the message "Stream '...' has no acceptable
    files. ...", after one pair of warnings per candidate.  Both are the
    builtin [Exception]; their messages differ. *)
Theorem C3_resolution_failures (w : World) (st : state) :
  file_paths (self st) = [] ->
  let file_path := cfg_path (file_config (self st)) in
  (os_path_exists w file_path = false ->
   get_file_paths w st
   = (Raise (path_missing_error file_path),
      log_events [PathExists file_path] st))
  /\ (os_path_exists w file_path = true ->
      List.filter accepts (candidates w file_path) = [] ->
      get_file_paths w st
      = (Raise (no_files_error (name (self st))),
         log_events (probe_events w file_path
                     ++ concat (rejection_warnings <$> candidates w file_path))
                    st))
  /\ path_missing_error file_path <> no_files_error (name (self st)).
Proof.
  intros Hnil file_path. split; [|split].
  - intros Hex. by apply get_file_paths_missing.
  - intros Hex Hnone. rewrite (get_file_paths_fresh w st Hnil Hex). cbv zeta.
    fold file_path. rewrite Hnone. simpl.
    by rewrite (filter_events_all_rejected _ Hnone).
  - unfold path_missing_error, no_files_error. intros [=].
Qed.

Lemma C3_resolution_failures_witness :
  get_file_paths Fixtures.nothing (Fixtures.stream "data" None)
  = (Raise (path_missing_error "data"),
     log_events [PathExists "data"] (Fixtures.stream "data" None))
  /\ get_file_paths (Fixtures.data_dir ["readme.txt"]) (Fixtures.stream "data" None)
     = (Raise (no_files_error "people"),
        log_events [PathExists "data"; PathIsDir "data"; ListDir "data/";
                    Warning "Skipping non-csv file 'data/readme.txt'";
                    Warning extensions_message]
                   (Fixtures.stream "data" None)).
Proof.
  split.
  - apply (C3_resolution_failures Fixtures.nothing
             (Fixtures.stream "data" None) eq_refl). reflexivity.
  - apply (C3_resolution_failures (Fixtures.data_dir ["readme.txt"])
             (Fixtures.stream "data" None) eq_refl); reflexivity.
Defined.

(** C5: once a call of [get_file_paths] has returned a list, every later
    call on the same instance returns that list and changes nothing: no
    event is added, so the file system is not consulted, whatever it
    holds by then. *)
Theorem C5_resolution_memoized (w1 : World) (st st1 : state)
    (paths : list string) :
  get_file_paths w1 st = (Return paths, st1) ->
  forall ws : list World,
    get_file_paths_seq ws st1 = (replicate (length ws) (Return paths), st1).
Proof.
  intros [Hfp Hne]%get_file_paths_success ws.
  induction ws as [|w ws IH]; [done|].
  cbn [get_file_paths_seq length replicate].
  rewrite get_file_paths_cached by (by rewrite Hfp).
  by rewrite IH, Hfp.
Qed.

Lemma C5_resolution_memoized_witness :
  get_file_paths_seq
    [Fixtures.data_dir ["a.csv"; "readme.txt"; "b.csv.gz"; "c.csv"];
     Fixtures.nothing]
    (get_file_paths (Fixtures.data_dir ["a.csv"; "readme.txt"; "b.csv.gz"])
       (Fixtures.stream "data" None)).2
  = ([Return ["data/a.csv"; "data/b.csv.gz"];
      Return ["data/a.csv"; "data/b.csv.gz"]],
     (get_file_paths (Fixtures.data_dir ["a.csv"; "readme.txt"; "b.csv.gz"])
        (Fixtures.stream "data" None)).2).
Proof.
  apply (C5_resolution_memoized
           (Fixtures.data_dir ["a.csv"; "readme.txt"; "b.csv.gz"])
           (Fixtures.stream "data" None) _ ["data/a.csv"; "data/b.csv.gz"]
           eq_refl
           [Fixtures.data_dir ["a.csv"; "readme.txt"; "b.csv.gz"; "c.csv"];
            Fixtures.nothing]).
Defined.

(** C10: when the configured path is a directory, the resolved list is
    the entries of the directory, each behind the cleaned directory path,
    filtered by [is_valid_filename] alone.  [os.path.isdir] is asked about
    the configured path and about nothing else, so an entry that is itself
    a directory and whose name passes the filter is in the list. *)
Theorem C10_entries_filtered_by_name_only (w : World) (st : state)
    (filename : string) :
  file_paths (self st) = [] ->
  let file_path := cfg_path (file_config (self st)) in
  os_path_exists w file_path = true ->
  os_path_isdir w file_path = true ->
  filename ∈ os_listdir w (clean_path w file_path) ->
  accepts (clean_path w file_path +:+ filename) = true ->
  os_path_isdir w (clean_path w file_path +:+ filename) = true ->
  exists found events,
    get_file_paths w st
    = (Return found, with_file_paths found (log_events events st))
    /\ found = List.filter accepts
                 ((fun f => clean_path w file_path +:+ f)
                    <$> os_listdir w (clean_path w file_path))
    /\ (clean_path w file_path +:+ filename) ∈ found
    /\ (forall p, PathIsDir p ∈ events -> p = file_path).
Proof.
  intros Hnil file_path Hex Hdir Hin Hacc _.
  rewrite (get_file_paths_fresh w st Hnil Hex). cbv zeta. fold file_path.
  assert (candidates w file_path
          = (fun f => clean_path w file_path +:+ f)
              <$> os_listdir w (clean_path w file_path)) as Hcand
    by (unfold candidates; by rewrite Hdir).
  assert (clean_path w file_path +:+ filename
            ∈ List.filter accepts (candidates w file_path)) as Hfound.
  { apply list_elem_of_In, filter_In. split; [|done].
    apply list_elem_of_In. rewrite Hcand. by apply list_elem_of_fmap_2. }
  destruct (List.filter accepts (candidates w file_path)) as [|x l] eqn:Hf.
  { by apply elem_of_nil in Hfound. }
  eexists _, _. split; [reflexivity|]. split; [by rewrite <- Hcand|].
  split; [done|].
  intros p. unfold probe_events. rewrite Hdir.
  rewrite elem_of_app. intros [Hp|Hp].
  - apply elem_of_cons in Hp as [?|Hp]; [done|].
    apply elem_of_cons in Hp as [Hp|Hp]; [congruence|].
    apply elem_of_cons in Hp as [?|Hp]; [done|]. by apply elem_of_nil in Hp.
  - by apply filter_events_no_isdir in Hp.
Qed.

Lemma C10_entries_filtered_by_name_only_witness :
  exists found events,
    get_file_paths Fixtures.nested_dir (Fixtures.stream "d" None)
    = (Return found,
       with_file_paths found (log_events events (Fixtures.stream "d" None)))
    /\ found = List.filter accepts
                 ((fun f => "d/" +:+ f) <$> ["data.csv"])
    /\ "d/data.csv" ∈ found
    /\ (forall p, PathIsDir p ∈ events -> p = "d").
Proof.
  apply (C10_entries_filtered_by_name_only Fixtures.nested_dir
           (Fixtures.stream "d" None) "data.csv" eq_refl eq_refl eq_refl);
    [ apply list_elem_of_here | reflexivity | reflexivity ].
Defined.

(* ===================================================================== *)
(** * Record production *)
(* ===================================================================== *)

Section RecordFacts.

Lemma elem_of_concat {A} (x : A) (ls : list (list A)) :
  x ∈ concat ls <-> exists l, x ∈ l /\ l ∈ ls.
Proof.
  rewrite list_elem_of_In, in_concat. split.
  - intros (l & Hl & Hx). exists l. by rewrite !list_elem_of_In.
  - intros (l & Hx & Hl). exists l. by rewrite <- !list_elem_of_In.
Qed.

Lemma take_min_length {A} (l : list A) (m : nat) :
  take (length l `min` m) l = take m l.
Proof.
  rewrite <- take_take. apply take_ge. rewrite length_take. lia.
Qed.

(** [get_records] is the loop over the resolved paths. *)
Lemma get_records_run (w : World) (context : option (gmap string string))
    (st st1 : state) (paths : list string) :
  get_file_paths w st = (Return paths, st1) ->
  get_records w context st = files_loop w paths st1.
Proof. intros H. unfold get_records. by rewrite H. Qed.

(** What the loop does when the first row of the file is not empty: that
    row is the header and each later row gives one record. *)
Lemma rows_loop_first_row (header : Row) (rows : list Row) :
  header <> [] ->
  rows_loop [] (header :: rows) = (fun row => dict (zip header row)) <$> rows.
Proof.
  intros Hne. rewrite rows_loop_fresh. simpl.
  apply truthy_true in Hne. by rewrite Hne.
Qed.

Lemma rows_after_header_nil (rows : list Row) :
  header_of rows = [] -> rows_after_header rows = [].
Proof.
  induction rows as [|r rows IH]; [done|]. simpl.
  destruct r as [|c r]; simpl; [exact IH|done].
Qed.

(** A file that gave a record has a header, and the header is one of the
    file's own rows. *)
Lemma file_record_inv (rows : list Row) (record : Record) :
  record ∈ rows_loop [] rows ->
  header_of rows ∈ rows
  /\ exists row, row ∈ rows /\ record = dict (zip (header_of rows) row).
Proof.
  rewrite rows_loop_fresh. intros (row & -> & Hrow)%list_elem_of_fmap.
  split; [|exists row; split; [by apply rows_after_header_sub|done]].
  destruct (header_of_truthy rows) as [Hnil|Hin]; [|done].
  apply rows_after_header_nil in Hnil. rewrite Hnil in Hrow.
  by apply elem_of_nil in Hrow.
Qed.

End RecordFacts.

(** C2: the record built from a header and a row pairs the fields by
    position and stops at the shorter of the two: it is the record of the
    first [n] header names and the first [n] row fields, [n] the smaller
    length; its keys are those [n] names and each value is the field
    paired with its name.  A shorter row gives the record of the header
    cut to the row's length, so a trailing header name is a key only if
    it repeats one of the paired names; a longer row gives the record of
    the row cut to the header's length.  Nothing is raised: in the loop of
    [get_records] such a row yields its record like any other. *)
Theorem C2_positional_pairing (headers row : Row) :
  let n := length headers `min` length row in
  let record := dict (zip headers row) in
  length (zip headers row) = n
  /\ (forall i h v, headers !! i = Some h -> row !! i = Some v ->
      zip headers row !! i = Some (h, v))
  /\ record = dict (zip (take n headers) (take n row))
  /\ (forall k, k ∈ keys record <-> k ∈ take n headers)
  /\ (forall k v, record !! k = Some v ->
      exists i, i < n /\ headers !! i = Some k /\ row !! i = Some v)
  /\ (NoDup (take n headers) ->
      forall i k v, headers !! i = Some k -> row !! i = Some v ->
      record !! k = Some v)
  /\ (length row < length headers ->
      record = dict (zip (take (length row) headers) row)
      /\ forall k, k ∈ drop (length row) headers ->
                   k ∉ take (length row) headers -> record !! k = None)
  /\ (length headers < length row ->
      record = dict (zip headers (take (length headers) row)))
  /\ (headers <> [] -> forall before after,
      rows_loop headers (before ++ row :: after)
      = rows_loop headers before ++ record :: rows_loop headers after).
Proof.
  cbv zeta.
  assert (forall k, k ∈ keys (dict (zip headers row))
                    <-> k ∈ take (length headers `min` length row) headers)
    as Hkeys.
  { intros k. by rewrite dict_keys, zip_names, take_min_length. }
  assert (forall i k v, headers !! i = Some k -> row !! i = Some v ->
                        zip headers row !! i = Some (k, v)) as Hpos.
  { intros i h v Hh Hv. rewrite lookup_zip_with, Hh. simpl. by rewrite Hv. }
  split; [apply length_zip_with|]. split; [exact Hpos|].
  split; [by rewrite zip_with_take_both' by lia|]. split; [exact Hkeys|].
  split; [|split; [|split; [|split]]].
  - intros k v Hkv%dict_lookup_Some.
    apply list_elem_of_lookup in Hkv as [i Hi].
    apply lookup_zip_with_Some in Hi as (h & x & [= -> ->] & Hh & Hx).
    exists i. split; [|done].
    apply lookup_lt_Some in Hh. apply lookup_lt_Some in Hx. lia.
  - intros Hnd i k v Hh Hv. apply dict_lookup_NoDup.
    + by rewrite zip_names, <- take_min_length.
    + apply list_elem_of_lookup. exists i. by apply Hpos.
  - intros Hlt. split; [by rewrite zip_with_take_l|].
    intros k _ Hk. apply not_elem_of_dom. fold (keys (dict (zip headers row))).
    rewrite Hkeys. by rewrite take_min_length.
  - intros Hlt. by rewrite zip_with_take_r.
  - intros Hne before after. rewrite !rows_loop_headers by done.
    by rewrite fmap_app, fmap_cons.
Qed.

(** C1 (the code departs from the claim): a file whose first line is
    blank.  [csv.reader] yields the empty row for it, the loop of
    [get_records] still finds [headers] empty at the second row and takes
    that one as the header, so it yields the single record a=1.  Taking
    the first row as the header, as [schema] does on the same file (it
    returns no property at all), would give one record per later row,
    each of them empty. *)
Theorem C1_blank_first_line_skipped :
  let w := Fixtures.one_file "t.csv" Fixtures.blank_first_line in
  let st := Fixtures.stream "t.csv" None in
  yielded (get_rows w "t.csv") = [[]; ["a"]; ["1"]]
  /\ (get_records w None st).1 = Gen [{["a" := "1"]}] Exhausted
  /\ (fun row => dict (zip [] row)) <$> [["a"]; ["1"]] = [∅; ∅]
  /\ (schema (fun properties => properties) w st).1 = Return [].
Proof. cbv zeta. repeat split. Qed.

(** C7: the records of [get_records] are the records of the files read,
    file after file, and the records of one file are made from that
    file's rows alone: each is the pairing of one of the file's rows with
    the header the loop holds for this file, which is itself a row of
    this file (its first row, when that row is not empty).  So the field
    names of a record all come from the header of the one file it was
    read from, and never from the headers of two files. *)
Theorem C7_headers_per_file (w : World) (context : option (gmap string string))
    (st st1 : state) (paths : list string) :
  get_file_paths w st = (Return paths, st1) ->
  yielded (get_records w context st).1
  = concat (file_records w <$> files_read w paths)
  /\ (forall file_path record,
      record ∈ file_records w file_path ->
      let rows := yielded (get_rows w file_path) in
      header_of rows ∈ rows
      /\ (forall first rest, rows = first :: rest -> first <> [] ->
          header_of rows = first)
      /\ (exists row, row ∈ rows /\ record = dict (zip (header_of rows) row))
      /\ (forall k, k ∈ keys record -> k ∈ header_of rows))
  /\ (forall record,
      record ∈ yielded (get_records w context st).1 ->
      exists file_path,
        file_path ∈ paths
        /\ record ∈ file_records w file_path
        /\ forall k, k ∈ keys record ->
                     k ∈ header_of (yielded (get_rows w file_path))).
Proof.
  intros Hres.
  assert (forall file_path record,
             record ∈ file_records w file_path ->
             forall k, k ∈ keys record ->
                       k ∈ header_of (yielded (get_rows w file_path))) as Hk.
  { intros file_path record (_ & row & _ & ->)%file_record_inv k.
    rewrite dict_keys, zip_names. apply subseteq_take. }
  assert (forall l, files_read w l ⊆ l) as Hsub.
  { induction l as [|p l IH]; [done|]. simpl.
    destruct (final (get_rows w p)).
    - intros x [->|Hx]%elem_of_cons; [left|right; by apply IH].
    - intros x [->|Hx]%elem_of_cons; [left|by apply elem_of_nil in Hx]. }
  rewrite (get_records_run w context st st1 paths Hres), files_loop_run.
  cbn [fst yielded]. split; [done|]. split.
  - intros file_path record Hrec. cbv zeta.
    pose proof (file_record_inv _ _ Hrec) as (Hhead & Hrow).
    split; [done|]. split; [|split; [done|by apply Hk]].
    intros first rest -> Hne. simpl. apply truthy_true in Hne. by rewrite Hne.
  - intros record (l & Hl & (file_path & -> & Hp)%list_elem_of_fmap)%elem_of_concat.
    exists file_path. split; [by apply Hsub|]. split; [done|by apply Hk].
Qed.

Lemma C7_headers_per_file_witness :
  yielded (get_records (Fixtures.data_dir ["a.csv"; "readme.txt"; "b.csv.gz"])
             None (Fixtures.stream "data" None)).1
  = [ {["id" := "1"; "name" := "Ann"]}; {["id" := "2"; "name" := "Bo"]};
      {["sku" := "x1"; "qty" := "7"]} ]
  /\ forall record,
      record ∈ yielded (get_records
                          (Fixtures.data_dir ["a.csv"; "readme.txt"; "b.csv.gz"])
                          None (Fixtures.stream "data" None)).1 ->
      exists file_path,
        file_path ∈ ["data/a.csv"; "data/b.csv.gz"]
        /\ record ∈ file_records
                      (Fixtures.data_dir ["a.csv"; "readme.txt"; "b.csv.gz"])
                      file_path
        /\ forall k, k ∈ keys record ->
                     k ∈ header_of
                           (yielded (get_rows
                              (Fixtures.data_dir ["a.csv"; "readme.txt"; "b.csv.gz"])
                              file_path)).
Proof.
  split; [reflexivity|].
  apply (C7_headers_per_file
           (Fixtures.data_dir ["a.csv"; "readme.txt"; "b.csv.gz"]) None
           (Fixtures.stream "data" None) _ ["data/a.csv"; "data/b.csv.gz"]
           eq_refl).
Defined.

(* ===================================================================== *)
(** * Schema derivation *)
(* ===================================================================== *)

Section SchemaFacts.

Context {JSONSchema : Type}.
Variable to_dict : list Property -> JSONSchema.

Lemma columns_loop_run (header : Row) (properties : list Property) :
  columns_loop header properties
  = properties
    ++ ((fun column => {| prop_name := column; prop_type := StringType |})
          <$> header).
Proof.
  revert properties. induction header as [|c header IH]; intros properties.
  - simpl. by rewrite app_nil_r.
  - cbn [columns_loop]. rewrite IH, fmap_cons. by rewrite <- app_assoc.
Qed.

(** [schema], once the paths are resolved: what follows depends on the
    first pull from the row reader of the first path. *)
Lemma schema_run (w : World) (st st1 : state) (file_path : string)
    (others : list string) :
  get_file_paths w
    (with_primary_keys (default [] (cfg_keys (file_config (self st)))) st)
  = (Return (file_path :: others), st1) ->
  schema to_dict w st
  = let st2 := log_events [OpenFile (select_opener file_path) file_path;
                           NextRow file_path] st1 in
    match yielded (get_rows w file_path), final (get_rows w file_path) with
    | header :: _, _ => (Return (to_dict (columns_loop header [])), st2)
    | [], Exhausted => (Raise (UnboundLocalError "header"), st2)
    | [], Raised e => (Raise e, st2)
    end.
Proof.
  intros Hres. unfold schema, bind, get_self, set_primary_keys.
  rewrite Hres. unfold first_row, bind. rewrite !emit_run, log_events_app.
  cbn [app]. cbv zeta.
  destruct (yielded (get_rows w file_path)) as [|header more]; [|done].
  destruct (final (get_rows w file_path)); done.
Qed.

End SchemaFacts.

(** C6: [schema] first sets the primary keys from the "keys" entry of the
    configuration ([[]] when there is none), then resolves the file
    paths; it opens the first path only and asks its reader for one row
    only; the result is made from one property per field of that row, in
    the row's order, each of type [StringType]. *)
Theorem C6_schema_from_first_header {JSONSchema : Type}
    (to_dict : list Property -> JSONSchema) (w : World) (st st1 : state)
    (file_path : string) (others : list string) (header : Row)
    (more : list Row) :
  get_file_paths w
    (with_primary_keys (default [] (cfg_keys (file_config (self st)))) st)
  = (Return (file_path :: others), st1) ->
  yielded (get_rows w file_path) = header :: more ->
  let properties :=
    (fun column => {| prop_name := column; prop_type := StringType |})
      <$> header in
  schema to_dict w st
  = (Return (to_dict properties),
     log_events [OpenFile (select_opener file_path) file_path;
                 NextRow file_path] st1)
  /\ prop_name <$> properties = header
  /\ Forall (fun p => prop_type p = StringType) properties
  /\ primary_keys (self st1) = default [] (cfg_keys (file_config (self st))).
Proof.
  intros Hres Hrows properties. split; [|split; [|split]].
  - rewrite (schema_run to_dict w st st1 file_path others Hres). cbv zeta.
    rewrite Hrows. by rewrite columns_loop_run.
  - unfold properties. clear. induction header as [|c h IH]; [done|].
    rewrite !fmap_cons. cbn [prop_name]. by rewrite IH.
  - unfold properties. apply Forall_fmap, Forall_true. done.
  - by apply get_file_paths_frame in Hres as (_ & _ & ->).
Qed.

Lemma C6_schema_from_first_header_witness :
  schema (fun properties => properties)
    (Fixtures.data_dir ["a.csv"; "readme.txt"; "b.csv.gz"])
    (Fixtures.stream "data" (Some ["id"]))
  = (Return [ {| prop_name := "id"; prop_type := StringType |};
              {| prop_name := "name"; prop_type := StringType |} ],
     log_events [OpenFile builtin_open "data/a.csv"; NextRow "data/a.csv"]
       (get_file_paths (Fixtures.data_dir ["a.csv"; "readme.txt"; "b.csv.gz"])
          (with_primary_keys ["id"] (Fixtures.stream "data" (Some ["id"])))).2).
Proof.
  apply (C6_schema_from_first_header (fun properties => properties)
           (Fixtures.data_dir ["a.csv"; "readme.txt"; "b.csv.gz"])
           (Fixtures.stream "data" (Some ["id"])) _
           "data/a.csv" ["data/b.csv.gz"] ["id"; "name"]
           [["1"; "Ann"]; ["2"; "Bo"]] eq_refl eq_refl).
Defined.

(** C9: when the reader of the first resolved path is exhausted without
    a row, the loop of [schema] never binds [header], and reading it
    raises [UnboundLocalError], a [NameError]: no schema is returned. *)
Theorem C9_schema_of_empty_first_file {JSONSchema : Type}
    (to_dict : list Property -> JSONSchema) (w : World) (st st1 : state)
    (file_path : string) (others : list string) :
  get_file_paths w
    (with_primary_keys (default [] (cfg_keys (file_config (self st)))) st)
  = (Return (file_path :: others), st1) ->
  get_rows w file_path = Gen [] Exhausted ->
  schema to_dict w st
  = (Raise (UnboundLocalError "header"),
     log_events [OpenFile (select_opener file_path) file_path;
                 NextRow file_path] st1)
  /\ is_NameError (UnboundLocalError "header") = true
  /\ forall properties st2, schema to_dict w st <> (Return properties, st2).
Proof.
  intros Hres Hrows.
  rewrite (schema_run to_dict w st st1 file_path others Hres). cbv zeta.
  rewrite Hrows. simpl. by repeat split.
Qed.

Lemma C9_schema_of_empty_first_file_witness :
  schema (fun properties => properties)
    (Fixtures.one_file "empty.csv" []) (Fixtures.stream "empty.csv" None)
  = (Raise (UnboundLocalError "header"),
     log_events [OpenFile builtin_open "empty.csv"; NextRow "empty.csv"]
       (get_file_paths (Fixtures.one_file "empty.csv" [])
          (Fixtures.stream "empty.csv" None)).2).
Proof.
  apply (C9_schema_of_empty_first_file (fun properties => properties)
           (Fixtures.one_file "empty.csv" [])
           (Fixtures.stream "empty.csv" None) _ "empty.csv" []
           eq_refl eq_refl).
Defined.


(* ===================================================================== *)
(** * Further properties of record production *)
(* ===================================================================== *)

Section MoreRecordFacts.

Lemma length_rows_after_header (rows : list Row) :
  length (rows_after_header rows) <= pred (length rows).
Proof.
  induction rows as [|r rows IH]; [done|]. simpl.
  destruct (truthy r); [done|]. destruct rows; simpl in *; lia.
Qed.

Lemma rows_loop_skip_blank (n : nat) (rows : list Row) :
  rows_loop [] (replicate n [] ++ rows) = rows_loop [] rows.
Proof. induction n as [|n IH]; [done|]. simpl. exact IH. Qed.

(** The value found under a key is the one of the last pair with it. *)
Lemma dict_lookup_last (pairs : list (string * string)) (i : nat)
    (k v : string) :
  pairs !! i = Some (k, v) ->
  (forall j kv, i < j -> pairs !! j = Some kv -> kv.1 <> k) ->
  dict pairs !! k = Some v.
Proof.
  induction pairs as [|kv' pairs IH] using rev_ind; [done|].
  intros Hi Hlast. rewrite dict_snoc.
  apply lookup_snoc_Some in Hi as [[Hlt Hi]|[-> ->]].
  - rewrite lookup_insert_ne.
    + apply IH; [done|]. intros j kv Hj Hkv.
      apply (Hlast j kv Hj). by apply lookup_app_l_Some.
    + apply (Hlast (length pairs) kv' Hlt).
      by rewrite lookup_app_r, Nat.sub_diag by lia.
  - simpl. by rewrite lookup_insert_eq.
Qed.

Lemma size_dict (pairs : list (string * string)) :
  size (dict pairs) <= length pairs
  /\ (NoDup pairs.*1 -> size (dict pairs) = length pairs).
Proof.
  induction pairs as [|kv pairs [IHle IHeq]] using rev_ind.
  - rewrite dict_nil, map_size_empty. done.
  - rewrite dict_snoc, map_size_insert, length_app, fmap_app. simpl. split.
    + destruct (dict pairs !! kv.1); simpl; lia.
    + intros [Hnd [Hdisj _]]%NoDup_app.
      destruct (dict pairs !! kv.1) as [v|] eqn:Hkv; simpl.
      * exfalso. apply (Hdisj kv.1); [|apply list_elem_of_here].
        apply dict_keys. unfold keys. apply elem_of_dom. by exists v.
      * rewrite IHeq by done. lia.
Qed.

End MoreRecordFacts.

(** X1: over a single resolved file whose reader is exhausted normally
    and whose first row is not empty, [get_records] yields exactly one
    record per later row, in row order: the pairing of the first row with
    that row.  A blank later row is no exception; its record is empty. *)
Theorem records_follow_first_row (w : World)
    (context : option (gmap string string)) (st st1 : state)
    (file_path : string) (header : Row) (rows : list Row) :
  get_file_paths w st = (Return [file_path], st1) ->
  get_rows w file_path = Gen (header :: rows) Exhausted ->
  header <> [] ->
  (get_records w context st).1
  = Gen ((fun row => dict (zip header row)) <$> rows) Exhausted
  /\ length (yielded (get_records w context st).1) = length rows
  /\ (forall i, rows !! i = Some [] ->
      yielded (get_records w context st).1 !! i = Some ∅).
Proof.
  intros Hres Hrows Hne.
  rewrite (get_records_run w context st st1 [file_path] Hres).
  cbn [files_loop]. rewrite Hrows. cbn [final yielded fst].
  rewrite rows_loop_first_row by done. rewrite app_nil_r.
  split; [done|]. split; [by rewrite length_fmap|].
  intros i Hi. rewrite list_lookup_fmap, Hi. simpl.
  by rewrite zip_with_nil_r.
Qed.

Lemma records_follow_first_row_witness :
  (get_records (Fixtures.one_file "t.csv" Fixtures.people) None
     (Fixtures.stream "t.csv" None)).1
  = Gen [ {["id" := "1"; "name" := "Ann"]}; {["id" := "2"; "name" := "Bo"]} ]
        Exhausted.
Proof.
  apply (records_follow_first_row (Fixtures.one_file "t.csv" Fixtures.people)
           None (Fixtures.stream "t.csv" None) _ "t.csv" ["id"; "name"]
           [["1"; "Ann"]; ["2"; "Bo"]] eq_refl eq_refl).
  done.
Defined.

(** X2: the inner loop of [get_records] skips the empty rows that come
    before the header without yielding anything for them: putting any
    number of empty rows in front of a file's rows does not change its
    records.  Rows that are all empty give no record, and a file never
    gives more records than it has rows but one. *)
Theorem leading_empty_rows_skipped (rows : list Row) :
  (forall n, rows_loop [] (replicate n [] ++ rows) = rows_loop [] rows)
  /\ (Forall (fun row => row = []) rows -> rows_loop [] rows = [])
  /\ length (rows_loop [] rows) <= pred (length rows).
Proof.
  split; [intros n; apply rows_loop_skip_blank|]. split.
  - induction 1 as [|row rest -> _ IH]; [done|]. exact IH.
  - rewrite rows_loop_fresh, length_fmap. apply length_rows_after_header.
Qed.

(** X3: when a header name occurs more than once among the paired
    positions, the record keeps the field of its last occurrence. *)
Theorem repeated_name_keeps_last_field (headers row : Row) (i : nat)
    (k v : string) :
  headers !! i = Some k ->
  row !! i = Some v ->
  (forall j, i < j -> j < length row -> headers !! j <> Some k) ->
  dict (zip headers row) !! k = Some v.
Proof.
  intros Hk Hv Hlast. apply (dict_lookup_last _ i).
  - rewrite lookup_zip_with, Hk. simpl. by rewrite Hv.
  - intros j [k' v'] Hj (h & x & [= -> ->] & Hh & Hx)%lookup_zip_with_Some.
    simpl. intros ->. apply (Hlast j Hj); [|done].
    by apply lookup_lt_Some in Hx.
Qed.

Lemma repeated_name_keeps_last_field_witness :
  dict (zip ["a"; "b"; "a"; "a"] ["1"; "2"; "3"]) !! "a" = Some "3".
Proof.
  apply (repeated_name_keeps_last_field ["a"; "b"; "a"; "a"] ["1"; "2"; "3"]
           2 "a" "3" eq_refl eq_refl).
  intros j Hj Hlen. simpl in Hlen. lia.
Defined.

(** X4: a record has at most as many fields as the shorter of header and
    row, and exactly that many when the paired header names are all
    different. *)
Theorem record_size_bound (headers row : Row) :
  size (dict (zip headers row)) <= length headers `min` length row
  /\ (NoDup (take (length row) headers) ->
      size (dict (zip headers row)) = length headers `min` length row).
Proof.
  destruct (size_dict (zip headers row)) as [Hle Heq].
  rewrite length_zip_with in Hle, Heq. rewrite zip_names in Heq. done.
Qed.

(* ===================================================================== *)
(** * Further properties of file resolution *)
(* ===================================================================== *)

Section MoreResolutionFacts.

Lemma filter_events_quiet (l : list string) :
  Forall (fun e => touches_files e = false) (concat (filter_events <$> l)).
Proof.
  induction l as [|c l IH]; cbn [fmap list_fmap concat]; [constructor|].
  apply Forall_app. split; [|done].
  unfold filter_events, rejection_warnings.
  destruct (accepts c); repeat constructor.
Qed.

Lemma probe_events_quiet (w : World) (file_path : string) :
  Forall (fun e => touches_files e = false) (probe_events w file_path).
Proof.
  unfold probe_events. destruct (os_path_isdir w file_path); repeat constructor.
Qed.

(** The result of [get_file_paths] and the instance it leaves depend on
    the instance it starts from, not on the events so far. *)
Lemma get_file_paths_self (w : World) (a b : state) :
  self a = self b ->
  (get_file_paths w a).1 = (get_file_paths w b).1
  /\ self (get_file_paths w a).2 = self (get_file_paths w b).2.
Proof.
  intros Hself. destruct (file_paths (self a)) as [|p0 l] eqn:Hfp.
  - assert (file_paths (self b) = []) as Hfpb by (by rewrite <- Hself).
    destruct (os_path_exists w (cfg_path (file_config (self a)))) eqn:Hex.
    + rewrite (get_file_paths_fresh w a Hfp Hex).
      rewrite Hself in Hex. rewrite (get_file_paths_fresh w b Hfpb Hex).
      cbv zeta. rewrite Hself.
      destruct (truthy _); simpl; by rewrite Hself.
    + rewrite (get_file_paths_missing w a Hfp Hex).
      rewrite Hself in Hex. rewrite (get_file_paths_missing w b Hfpb Hex).
      simpl. by rewrite Hself.
  - rewrite (get_file_paths_cached w a) by (by rewrite Hfp).
    rewrite (get_file_paths_cached w b) by (by rewrite <- Hself, Hfp).
    simpl. by rewrite Hself.
Qed.

End MoreResolutionFacts.

(** X5: the branch of [get_file_paths] for a configured path that exists
    and is not a directory.  The path is tested as it is written (it is
    neither normalized nor listed); if it passes the filter it is the one
    resolved path, unchanged, and it is memoized; if not, the two warnings
    are logged and the no-acceptable-files exception is raised. *)
Theorem single_file_resolution (w : World) (st : state) :
  file_paths (self st) = [] ->
  let file_path := cfg_path (file_config (self st)) in
  os_path_exists w file_path = true ->
  os_path_isdir w file_path = false ->
  get_file_paths w st
  = if accepts file_path then
      (Return [file_path],
       with_file_paths [file_path]
         (log_events [PathExists file_path; PathIsDir file_path] st))
    else
      (Raise (no_files_error (name (self st))),
       log_events ([PathExists file_path; PathIsDir file_path]
                   ++ rejection_warnings file_path) st).
Proof.
  intros Hnil file_path Hex Hdir.
  rewrite (get_file_paths_fresh w st Hnil Hex). cbv zeta. fold file_path.
  unfold candidates, probe_events, filter_events. rewrite Hdir.
  cbn [List.filter fmap list_fmap concat].
  destruct (accepts file_path); simpl; by rewrite ?app_nil_r.
Qed.

Lemma single_file_resolution_witness :
  get_file_paths (Fixtures.one_file "People.CSV" Fixtures.people)
    (Fixtures.stream "People.CSV" None)
  = (Return ["People.CSV"],
     with_file_paths ["People.CSV"]
       (log_events [PathExists "People.CSV"; PathIsDir "People.CSV"]
          (Fixtures.stream "People.CSV" None))).
Proof.
  apply (single_file_resolution
           (Fixtures.one_file "People.CSV" Fixtures.people)
           (Fixtures.stream "People.CSV" None) eq_refl eq_refl eq_refl).
Defined.

(** X6: [get_file_paths] never opens a file and never asks a reader for
    a row, whatever the file system and the instance: the events it adds
    are file-system tests, one listing and warnings. *)
Theorem resolution_opens_nothing (w : World) (st : state) :
  exists events,
    trace (get_file_paths w st).2 = trace st ++ events
    /\ Forall (fun e => touches_files e = false) events.
Proof.
  destruct (file_paths (self st)) as [|p0 l] eqn:Hfp.
  - destruct (os_path_exists w (cfg_path (file_config (self st)))) eqn:Hex.
    + rewrite (get_file_paths_fresh w st Hfp Hex). cbv zeta.
      eexists. split.
      * destruct (truthy _); reflexivity.
      * apply Forall_app. split;
          [apply probe_events_quiet|apply filter_events_quiet].
    + rewrite (get_file_paths_missing w st Hfp Hex).
      eexists. split; [reflexivity|]. repeat constructor.
  - rewrite get_file_paths_cached by (by rewrite Hfp).
    exists []. split; [by rewrite app_nil_r|constructor].
Qed.

(** X7: a resolution that is carried out returns the accepted candidates
    and nothing else, in the order of the candidates: every resolved path
    passes the extension filter, is one of the candidates as written
    (its letters keep their case), and the list is a sublist of the
    candidates. *)
Theorem resolved_paths_are_accepted_candidates (w : World) (st st1 : state)
    (paths : list string) :
  file_paths (self st) = [] ->
  get_file_paths w st = (Return paths, st1) ->
  Forall (fun p => accepts p = true) paths
  /\ paths `sublist_of` candidates w (cfg_path (file_config (self st)))
  /\ (forall c, c ∈ candidates w (cfg_path (file_config (self st))) ->
      accepts c = true -> c ∈ paths).
Proof.
  intros Hnil Hres.
  destruct (os_path_exists w (cfg_path (file_config (self st)))) eqn:Hex.
  2: { by rewrite (get_file_paths_missing w st Hnil Hex) in Hres. }
  rewrite (get_file_paths_fresh w st Hnil Hex) in Hres. cbv zeta in Hres.
  destruct (truthy _); [|done]. injection Hres as <- _.
  generalize (candidates w (cfg_path (file_config (self st)))) as l.
  intros l. split; [|split].
  - apply Forall_forall. intros p Hp%list_elem_of_In%filter_In. tauto.
  - induction l as [|c l IH]; [done|]. cbn [List.filter].
    destruct (accepts c); [by apply sublist_skip|by apply sublist_cons].
  - intros c Hc Hacc. apply list_elem_of_In, filter_In.
    split; [by apply list_elem_of_In|done].
Qed.

Lemma resolved_paths_are_accepted_candidates_witness :
  Forall (fun p => accepts p = true) ["data/A.CSV"; "data/b.csv.gz"]
  /\ ["data/A.CSV"; "data/b.csv.gz"]
       `sublist_of` candidates (Fixtures.data_dir ["A.CSV"; "notes.txt"; "b.csv.gz"])
                      "data"
  /\ (forall c,
      c ∈ candidates (Fixtures.data_dir ["A.CSV"; "notes.txt"; "b.csv.gz"]) "data" ->
      accepts c = true -> c ∈ ["data/A.CSV"; "data/b.csv.gz"]).
Proof.
  apply (resolved_paths_are_accepted_candidates
           (Fixtures.data_dir ["A.CSV"; "notes.txt"; "b.csv.gz"])
           (Fixtures.stream "data" None) _ ["data/A.CSV"; "data/b.csv.gz"]
           eq_refl eq_refl).
Defined.

(** X8: a failed resolution is not memoized.  When [get_file_paths]
    raises, the instance is left as it was, with no list, so the next
    call resolves again and answers as a first call would under the file
    system of that moment. *)
Theorem failed_resolution_is_retried (w : World) (st st1 : state) (e : exn) :
  get_file_paths w st = (Raise e, st1) ->
  self st1 = self st
  /\ file_paths (self st1) = []
  /\ forall w2, (get_file_paths w2 st1).1 = (get_file_paths w2 st).1.
Proof.
  intros Hres.
  assert (self st1 = self st /\ file_paths (self st) = []) as [Hself Hnil].
  { destruct (file_paths (self st)) as [|p0 l] eqn:Hfp.
    - destruct (os_path_exists w (cfg_path (file_config (self st)))) eqn:Hex.
      + rewrite (get_file_paths_fresh w st Hfp Hex) in Hres. cbv zeta in Hres.
        destruct (truthy _); [done|]. by injection Hres as _ <-.
      + rewrite (get_file_paths_missing w st Hfp Hex) in Hres.
        by injection Hres as _ <-.
    - by rewrite get_file_paths_cached in Hres by (by rewrite Hfp). }
  split; [done|]. split; [by rewrite Hself|].
  intros w2. by apply get_file_paths_self.
Qed.

Lemma failed_resolution_is_retried_witness :
  (get_file_paths (Fixtures.data_dir ["a.csv"])
     (get_file_paths Fixtures.nothing (Fixtures.stream "data" None)).2).1
  = Return ["data/a.csv"].
Proof.
  destruct (failed_resolution_is_retried Fixtures.nothing
              (Fixtures.stream "data" None) _ _ eq_refl) as (_ & _ & Hretry).
  rewrite Hretry. reflexivity.
Defined.

(* ===================================================================== *)
(** * Reading the files: order, failures and the schema *)
(* ===================================================================== *)

Section MoreReadingFacts.

Lemma opened_app (a b : list event) : opened (a ++ b) = opened a ++ opened b.
Proof.
  induction a as [|e a IH]; [done|]. destruct e; simpl; by rewrite ?IH.
Qed.

Lemma opened_next_rows (n : nat) (p : string) :
  opened (replicate n (NextRow p)) = [].
Proof. induction n as [|n IH]; [done|]. exact IH. Qed.

Lemma opened_read_all (w : World) (l : list string) :
  opened (concat (read_all_events w <$> l)) = l.
Proof.
  induction l as [|p l IH]; [done|]. cbn [fmap list_fmap concat].
  rewrite opened_app, IH. unfold read_all_events. cbn [opened].
  by rewrite opened_next_rows.
Qed.

Lemma files_read_all (w : World) (paths : list string) :
  Forall (fun p => final (get_rows w p) = Exhausted) paths ->
  files_read w paths = paths.
Proof.
  induction 1 as [|p l Hp _ IH]; [done|]. simpl. by rewrite Hp, IH.
Qed.

Lemma files_read_stop (w : World) (before after : list string) (p : string)
    (e : exn) :
  Forall (fun q => final (get_rows w q) = Exhausted) before ->
  final (get_rows w p) = Raised e ->
  files_read w (before ++ p :: after) = before ++ [p].
Proof.
  intros Hbefore Hp. induction Hbefore as [|q l Hq _ IH]; simpl.
  - by rewrite Hp.
  - by rewrite Hq, IH.
Qed.

Lemma opener_gz (file_path : string) :
  Str.endswith (Str.lower file_path) ".gz" = true ->
  select_opener file_path = gzip_open.
Proof. unfold select_opener. by intros ->. Qed.

Lemma opener_bz2 (file_path : string) :
  Str.endswith (Str.lower file_path) ".bz2" = true ->
  select_opener file_path = bz2_open.
Proof.
  unfold select_opener. intros Hbz. rewrite Hbz.
  destruct (Str.endswith (Str.lower file_path) ".gz") eqn:Hgz; [|done].
  apply gz_excludes_bz2 in Hgz. congruence.
Qed.

Lemma opener_lzma (file_path : string) :
  Str.endswith (Str.lower file_path) ".xz" = true
  \/ Str.endswith (Str.lower file_path) ".lzma" = true ->
  select_opener file_path = lzma_open.
Proof.
  unfold select_opener. intros Hx.
  destruct (Str.endswith (Str.lower file_path) ".gz") eqn:Hgz.
  { pose proof (gz_excludes_xz _ Hgz). pose proof (gz_excludes_lzma _ Hgz).
    destruct Hx; congruence. }
  destruct (Str.endswith (Str.lower file_path) ".bz2") eqn:Hbz.
  { pose proof (bz2_excludes_xz _ Hbz). pose proof (bz2_excludes_lzma _ Hbz).
    destruct Hx; congruence. }
  destruct Hx as [-> | ->]; [done|]. by rewrite orb_true_r.
Qed.

Lemma opener_csv (file_path : string) :
  Str.endswith (Str.lower file_path) ".csv" = true ->
  select_opener file_path = builtin_open.
Proof.
  intros Hcsv. unfold select_opener.
  destruct (Str.endswith (Str.lower file_path) ".gz") eqn:Hgz.
  { by pose proof (endswith_tails _ ".cs" "v" ".g" "z" eq_refl Hcsv Hgz). }
  destruct (Str.endswith (Str.lower file_path) ".bz2") eqn:Hbz.
  { by pose proof (endswith_tails _ ".cs" "v" ".bz" "2" eq_refl Hcsv Hbz). }
  destruct (Str.endswith (Str.lower file_path) ".xz") eqn:Hxz.
  { by pose proof (endswith_tails _ ".cs" "v" ".x" "z" eq_refl Hcsv Hxz). }
  destruct (Str.endswith (Str.lower file_path) ".lzma") eqn:Hl; [|done].
  by pose proof (endswith_tails _ ".cs" "v" ".lzm" "a" eq_refl Hcsv Hl).
Qed.

Context {JSONSchema : Type}.
Variable to_dict : list Property -> JSONSchema.

(** [schema] when the resolution raises: the exception passes through. *)
Lemma schema_resolution_fails (w : World) (st st1 : state) (e : exn) :
  get_file_paths w
    (with_primary_keys (default [] (cfg_keys (file_config (self st)))) st)
  = (Raise e, st1) ->
  schema to_dict w st = (Raise e, st1).
Proof.
  intros Hres. unfold schema, bind, get_self, set_primary_keys.
  by rewrite Hres.
Qed.

(** What a call of [schema] that returns went through. *)
Lemma schema_success_inv (w : World) (st st2 : state) (v : JSONSchema) :
  schema to_dict w st = (Return v, st2) ->
  exists file_path others st1 header more,
    get_file_paths w
      (with_primary_keys (default [] (cfg_keys (file_config (self st)))) st)
    = (Return (file_path :: others), st1)
    /\ yielded (get_rows w file_path) = header :: more
    /\ v = to_dict (columns_loop header [])
    /\ st2 = log_events [OpenFile (select_opener file_path) file_path;
                         NextRow file_path] st1.
Proof.
  destruct (get_file_paths w
              (with_primary_keys (default [] (cfg_keys (file_config (self st))))
                 st)) as [[paths|e] st1] eqn:Hres.
  - pose proof (get_file_paths_success _ _ _ _ Hres) as [_ Hne].
    destruct paths as [|file_path others]; [done|].
    rewrite (schema_run to_dict w st st1 file_path others Hres). cbv zeta.
    destruct (yielded (get_rows w file_path)) as [|header more] eqn:Hrows.
    + destruct (final (get_rows w file_path)); done.
    + intros [= <- <-]. by exists file_path, others, st1, header, more.
  - by rewrite (schema_resolution_fails w st st1 e Hres).
Qed.

End MoreReadingFacts.

(** X9: when every resolved file is read to its end without an
    exception, [get_records] yields the records of all the files, file
    after file in the order of the list, and ends normally; it opens each
    resolved path once, in that order. *)
Theorem all_files_read_in_order (w : World)
    (context : option (gmap string string)) (st st1 : state)
    (paths : list string) :
  get_file_paths w st = (Return paths, st1) ->
  Forall (fun p => final (get_rows w p) = Exhausted) paths ->
  get_records w context st
  = (Gen (concat (file_records w <$> paths)) Exhausted,
     log_events (concat (read_all_events w <$> paths)) st1)
  /\ opened (concat (read_all_events w <$> paths)) = paths.
Proof.
  intros Hres Hall. split; [|apply opened_read_all].
  rewrite (get_records_run w context st st1 paths Hres), files_loop_run.
  rewrite (files_read_all w paths Hall). do 2 f_equal.
  destruct (last paths) as [p|] eqn:Hlast; [|done]. simpl.
  apply last_Some_elem_of in Hlast.
  by rewrite Forall_forall in Hall; rewrite (Hall p Hlast).
Qed.

Lemma all_files_read_in_order_witness :
  get_records (Fixtures.data_dir ["a.csv"; "b.csv.gz"]) None
    (Fixtures.stream "data" None)
  = (Gen (concat (file_records (Fixtures.data_dir ["a.csv"; "b.csv.gz"])
                    <$> ["data/a.csv"; "data/b.csv.gz"])) Exhausted,
     log_events
       (concat (read_all_events (Fixtures.data_dir ["a.csv"; "b.csv.gz"])
                  <$> ["data/a.csv"; "data/b.csv.gz"]))
       (get_file_paths (Fixtures.data_dir ["a.csv"; "b.csv.gz"])
          (Fixtures.stream "data" None)).2).
Proof.
  apply (all_files_read_in_order (Fixtures.data_dir ["a.csv"; "b.csv.gz"])
           None (Fixtures.stream "data" None) _
           ["data/a.csv"; "data/b.csv.gz"] eq_refl).
  repeat constructor.
Defined.

(** X10: an exception from the reader of one file ends [get_records]:
    the records of the files before it and the records made from the rows
    this file gave before the exception have been yielded, the exception
    escapes, and none of the later files is opened. *)
Theorem reader_failure_stops_records (w : World)
    (context : option (gmap string string)) (st st1 : state)
    (before after : list string) (file_path : string) (e : exn) :
  get_file_paths w st = (Return (before ++ file_path :: after), st1) ->
  Forall (fun p => final (get_rows w p) = Exhausted) before ->
  final (get_rows w file_path) = Raised e ->
  get_records w context st
  = (Gen (concat (file_records w <$> before) ++ file_records w file_path)
         (Raised e),
     log_events (concat (read_all_events w <$> before ++ [file_path])) st1)
  /\ opened (concat (read_all_events w <$> before ++ [file_path]))
     = before ++ [file_path].
Proof.
  intros Hres Hbefore Hfail. split; [|apply opened_read_all].
  rewrite (get_records_run w context st st1 _ Hres), files_loop_run.
  rewrite (files_read_stop w before after file_path e Hbefore Hfail).
  rewrite last_snoc. simpl. rewrite Hfail.
  by rewrite fmap_app, concat_app; simpl; rewrite app_nil_r.
Qed.

Lemma reader_failure_stops_records_witness :
  (get_records (Fixtures.data_dir ["a.csv"; "x.csv"; "b.csv.gz"]) None
     (Fixtures.stream "data" None)).1
  = Gen [ {["id" := "1"; "name" := "Ann"]}; {["id" := "2"; "name" := "Bo"]} ]
        (Raised (OtherError "cannot open"))
  /\ opened (concat (read_all_events
                       (Fixtures.data_dir ["a.csv"; "x.csv"; "b.csv.gz"])
                       <$> ["data/a.csv"] ++ ["data/x.csv"]))
     = ["data/a.csv"] ++ ["data/x.csv"].
Proof.
  destruct (reader_failure_stops_records
              (Fixtures.data_dir ["a.csv"; "x.csv"; "b.csv.gz"]) None
              (Fixtures.stream "data" None) _
              ["data/a.csv"] ["data/b.csv.gz"] "data/x.csv"
              (OtherError "cannot open") eq_refl) as [Hrun Hopened].
  - repeat constructor.
  - reflexivity.
  - split; [by rewrite Hrun|exact Hopened].
Defined.

(** X11: the filter and the reader agree on the five accepted
    extensions: a path ending (letters of any case) in [.csv] is read as
    plain text, in [.csv.gz] through gzip, in [.csv.bz2] through bzip2,
    in [.csv.xz] or [.csv.lzma] through LZMA.  So an accepted path is read
    without decompression exactly when it ends in [.csv]. *)
Theorem accepted_extension_picks_decoder (file_path : string) :
  let lowered := Str.lower file_path in
  (Str.endswith lowered ".csv" = true -> select_opener file_path = builtin_open)
  /\ (Str.endswith lowered ".csv.gz" = true ->
      select_opener file_path = gzip_open)
  /\ (Str.endswith lowered ".csv.bz2" = true ->
      select_opener file_path = bz2_open)
  /\ (Str.endswith lowered ".csv.xz" = true ->
      select_opener file_path = lzma_open)
  /\ (Str.endswith lowered ".csv.lzma" = true ->
      select_opener file_path = lzma_open)
  /\ (accepts file_path = true ->
      (select_opener file_path = builtin_open
       <-> Str.endswith lowered ".csv" = true)).
Proof.
  cbv zeta.
  assert (Str.endswith (Str.lower file_path) ".csv.gz" = true ->
          select_opener file_path = gzip_open) as Hgz.
  { intros H. apply opener_gz. by apply (endswith_app _ ".csv" ".gz"). }
  assert (Str.endswith (Str.lower file_path) ".csv.bz2" = true ->
          select_opener file_path = bz2_open) as Hbz.
  { intros H. apply opener_bz2. by apply (endswith_app _ ".csv" ".bz2"). }
  assert (Str.endswith (Str.lower file_path) ".csv.xz" = true ->
          select_opener file_path = lzma_open) as Hxz.
  { intros H. apply opener_lzma. left. by apply (endswith_app _ ".csv" ".xz"). }
  assert (Str.endswith (Str.lower file_path) ".csv.lzma" = true ->
          select_opener file_path = lzma_open) as Hlz.
  { intros H. apply opener_lzma. right.
    by apply (endswith_app _ ".csv" ".lzma"). }
  repeat (split; [first [exact Hgz|exact Hbz|exact Hxz|exact Hlz|apply opener_csv]|]).
  intros Hacc. split; [|apply opener_csv].
  intros Hplain. unfold accepts in Hacc.
  apply ext_loop_spec in Hacc as (ext & Hin & Hext).
  unfold supported_extensions in Hin.
  repeat (apply elem_of_cons in Hin as [->|Hin]);
    [done| | | | |by apply elem_of_nil in Hin].
  - apply Hgz in Hext. congruence.
  - apply Hbz in Hext. congruence.
  - apply Hxz in Hext. congruence.
  - apply Hlz in Hext. congruence.
Qed.

(** X12: [schema] sets the primary keys before anything can fail: after
    the call, whether it returned or raised (missing path, no acceptable
    file, unreadable or empty first file), [primary_keys] holds the
    "keys" entry of the configuration, or [[]] without one, and the name
    and the configuration of the stream are as before. *)
Theorem schema_always_sets_primary_keys {JSONSchema : Type}
    (to_dict : list Property -> JSONSchema) (w : World) (st : state) :
  primary_keys (self (schema to_dict w st).2)
  = default [] (cfg_keys (file_config (self st)))
  /\ name (self (schema to_dict w st).2) = name (self st)
  /\ file_config (self (schema to_dict w st).2) = file_config (self st).
Proof.
  destruct (get_file_paths w
              (with_primary_keys (default [] (cfg_keys (file_config (self st))))
                 st)) as [[paths|e] st1] eqn:Hres.
  - pose proof (get_file_paths_success _ _ _ _ Hres) as [_ Hne].
    pose proof (get_file_paths_frame _ _ _ _ Hres) as (Hn & Hc & Hk).
    destruct paths as [|file_path others]; [done|].
    rewrite (schema_run to_dict w st st1 file_path others Hres). cbv zeta.
    destruct (yielded (get_rows w file_path));
      [destruct (final (get_rows w file_path))|]; simpl; by rewrite Hn, Hc, Hk.
  - pose proof (get_file_paths_frame _ _ _ _ Hres) as (Hn & Hc & Hk).
    rewrite (schema_resolution_fails to_dict w st st1 e Hres). simpl.
    by rewrite Hn, Hc, Hk.
Qed.

(** X13: [schema] returns a schema exactly when the resolution returns a
    list and the reader of its first path gives a row; the schema is then
    made from the fields of that row.  In every other case it raises. *)
Theorem schema_returns_iff_first_row {JSONSchema : Type}
    (to_dict : list Property -> JSONSchema) (w : World) (st : state) :
  (exists v st2, schema to_dict w st = (Return v, st2))
  <-> (exists file_path others st1 header more,
        get_file_paths w
          (with_primary_keys (default [] (cfg_keys (file_config (self st)))) st)
        = (Return (file_path :: others), st1)
        /\ yielded (get_rows w file_path) = header :: more).
Proof.
  split.
  - intros (v & st2 & Hrun).
    apply schema_success_inv in Hrun
      as (file_path & others & st1 & header & more & Hres & Hrows & _).
    by exists file_path, others, st1, header, more.
  - intros (file_path & others & st1 & header & more & Hres & Hrows).
    rewrite (schema_run to_dict w st st1 file_path others Hres). cbv zeta.
    rewrite Hrows. eauto.
Qed.

(** X14: the list resolved by [schema] serves the records.  After a call
    of [schema] that returned, [get_records] goes through the memoized
    paths under whatever file system it is given: it tests no path, lists
    no directory and logs no warning, it only opens and reads the
    memoized files. *)
Theorem records_after_schema_reuse_paths {JSONSchema : Type}
    (to_dict : list Property -> JSONSchema) (w : World) (st st2 : state)
    (v : JSONSchema) :
  schema to_dict w st = (Return v, st2) ->
  file_paths (self st2) <> []
  /\ forall w2 context,
      get_records w2 context st2
      = (Gen (concat (file_records w2 <$> files_read w2 (file_paths (self st2))))
             (default Exhausted
                (final <$> (get_rows w2
                              <$> last (files_read w2 (file_paths (self st2)))))),
         log_events
           (concat (read_all_events w2
                      <$> files_read w2 (file_paths (self st2)))) st2).
Proof.
  intros (file_path & others & st1 & header & more & Hres & _ & _ & ->)
    %schema_success_inv.
  apply get_file_paths_success in Hres as [Hfp _].
  assert (file_paths (self (log_events
            [OpenFile (select_opener file_path) file_path; NextRow file_path]
            st1)) = file_path :: others) as Hfp' by exact Hfp.
  split; [by rewrite Hfp'|].
  intros w2 context. unfold get_records.
  rewrite get_file_paths_cached by (by rewrite Hfp').
  by rewrite files_loop_run.
Qed.

Lemma records_after_schema_reuse_paths_witness :
  (get_records Fixtures.nothing None
     (schema (fun properties => properties)
        (Fixtures.data_dir ["a.csv"; "b.csv.gz"])
        (Fixtures.stream "data" None)).2).1
  = Gen [] (Raised (OtherError "cannot open")).
Proof.
  destruct (records_after_schema_reuse_paths (fun properties => properties)
              (Fixtures.data_dir ["a.csv"; "b.csv.gz"])
              (Fixtures.stream "data" None) _ _ eq_refl) as [_ Hrun].
  rewrite Hrun. reflexivity.
Defined.

(** X15: the schema covers the records of the first file.  When the
    first row of the first resolved file is not empty, the names of the
    properties [schema] declares are the fields of that row, and every
    field name of every record [get_records] makes from this file is one
    of them. *)
Theorem first_file_records_within_schema {JSONSchema : Type}
    (to_dict : list Property -> JSONSchema) (w : World) (st st1 : state)
    (file_path : string) (others : list string) (header : Row)
    (more : list Row) :
  get_file_paths w
    (with_primary_keys (default [] (cfg_keys (file_config (self st)))) st)
  = (Return (file_path :: others), st1) ->
  yielded (get_rows w file_path) = header :: more ->
  header <> [] ->
  exists properties st2,
    schema to_dict w st = (Return (to_dict properties), st2)
    /\ prop_name <$> properties = header
    /\ forall record, record ∈ file_records w file_path ->
       forall k, k ∈ keys record -> k ∈ prop_name <$> properties.
Proof.
  intros Hres Hrows Hne.
  exists ((fun column => {| prop_name := column; prop_type := StringType |})
            <$> header).
  eexists. rewrite (schema_run to_dict w st st1 file_path others Hres).
  cbv zeta. rewrite Hrows, columns_loop_run.
  assert (prop_name <$> ((fun column =>
            {| prop_name := column; prop_type := StringType |}) <$> header)
          = header) as Hnames.
  { clear. induction header as [|c h IH]; [done|].
    rewrite !fmap_cons. cbn [prop_name]. by rewrite IH. }
  split; [reflexivity|]. split; [exact Hnames|].
  intros record Hrec k Hk. rewrite Hnames.
  unfold file_records in Hrec. rewrite Hrows, rows_loop_first_row in Hrec by done.
  apply list_elem_of_fmap in Hrec as (row & -> & _).
  apply dict_keys in Hk. rewrite zip_names in Hk.
  by apply (subseteq_take (length row) header).
Qed.

Lemma first_file_records_within_schema_witness :
  exists properties st2,
    schema (fun properties => properties)
      (Fixtures.data_dir ["a.csv"; "b.csv.gz"]) (Fixtures.stream "data" None)
    = (Return properties, st2)
    /\ prop_name <$> properties = ["id"; "name"]
    /\ forall record,
       record ∈ file_records (Fixtures.data_dir ["a.csv"; "b.csv.gz"]) "data/a.csv" ->
       forall k, k ∈ keys record -> k ∈ prop_name <$> properties.
Proof.
  apply (first_file_records_within_schema (fun properties => properties)
           (Fixtures.data_dir ["a.csv"; "b.csv.gz"])
           (Fixtures.stream "data" None) _ "data/a.csv" ["data/b.csv.gz"]
           ["id"; "name"] [["1"; "Ann"]; ["2"; "Bo"]] eq_refl eq_refl).
  done.
Defined.

(** X16: the constructor takes "file_config" out of the keyword
    arguments.  Without that keyword it raises [KeyError] and the base
    constructor is not reached.  With it, the base constructor gets the
    positional arguments unchanged and the keyword arguments without
    "file_config" and otherwise as given; putting the configuration back
    under "file_config" gives the original keyword arguments. *)
Theorem init_pops_file_config {Value : Type} (args : list Value)
    (kwargs : gmap string Value) :
  (kwargs !! "file_config" = None -> init args kwargs = KeyError "file_config")
  /\ (forall file_config, kwargs !! "file_config" = Some file_config ->
      exists rest,
        init args kwargs = SuperInit file_config args rest
        /\ rest !! "file_config" = None
        /\ (forall k, k <> "file_config" -> rest !! k = kwargs !! k)
        /\ <["file_config" := file_config]> rest = kwargs).
Proof.
  unfold init. split.
  - by intros ->.
  - intros file_config Hfc. rewrite Hfc. eexists. split; [reflexivity|].
    split; [apply lookup_delete_eq|]. split.
    + intros k Hk. by apply lookup_delete_ne.
    + by apply insert_delete_id.
Qed.
